(** * voice-equalizer: a shallow embedding of the DSP core and its glue

    The Python sources embedded here are
    - [voice_equalizer/processing.py] ([_peaking_sos], [design_eq],
      [AudioProcessor.__init__], [AudioProcessor._process]),
    - [voice_equalizer/tuner.py] ([_dominant_freq], [run_tuner]),
    - [voice_equalizer/viewer.py] (the two bounded deques, [add_data] and
      the snapshot made by [_animate]),
    - [voice_equalizer/presets.py] ([save_preset], [load_preset]).

    Conventions.
    - A [float64] is idealised as a real number of [R]; rounding, infinities
      and NaN are outside the model.  Python [int]s are [Z].
    - A raised exception is a value [Raise e] of the error monad [result].
    - Functions of NumPy and SciPy whose numerical content the repository
      relies on ([sosfilt], [hanning], [rfft], [rfftfreq], [argmax], [mean])
      are written out from their documented definitions.  The filter
      designers [butter], [iirnotch], [sosfilt_zi], the parser behind
      [float(str)] and [str.strip] are parameters (record [SignalLib],
      section variables): every theorem holds for whatever they return.
    - A preset file holds the JSON value it parses to; what the tuner
      writes to the console is a list of [message]s. *)

From Stdlib Require Import Reals Lra Lia String Ascii DecimalString ZArith Bool Arith List.
Import ListNotations.

Open Scope R_scope.

(* ------------------------------------------------------------------ *)
(** ** Python values, exceptions and the error monad                   *)
(* ------------------------------------------------------------------ *)

Module Py.

Inductive exn : Type :=
| ValueError
| KeyError
| TypeError
| IndexError
| ZeroDivisionError
| AttributeError
| EOFError
| FileNotFoundError
| SystemExit (code : Z).

Inductive result (A : Type) : Type :=
| Ok (a : A)
| Raise (e : exn).

Arguments Ok {A} a.
Arguments Raise {A} e.

Definition bind {A B : Type} (m : result A) (k : A -> result B) : result B :=
  match m with
  | Ok a => k a
  | Raise e => Raise e
  end.

Definition is_ok {A : Type} (m : result A) : Prop :=
  exists a, m = Ok a.

(** The values [json.loads] can produce.  A [dict] keeps its insertion
    order, so an object is an association list. *)
#[local] Unset Elimination Schemes.
Inductive json : Type :=
| JNull
| JBool (b : bool)
| JNum (r : R)
| JStr (s : string)
| JArr (items : list json)
| JObj (fields : list (string * json)).
#[local] Set Elimination Schemes.

(** [d.get(key)]: the value bound to [key], if any. *)
Fixpoint dict_lookup (key : string) (d : list (string * json)) : option json :=
  match d with
  | [] => None
  | (k, v) :: d' => if String.eqb k key then Some v else dict_lookup key d'
  end.

(** [d.get(key, default)]. *)
Definition dict_get (key : string) (default : json) (d : list (string * json)) : json :=
  match dict_lookup key d with
  | Some v => v
  | None => default
  end.

End Py.

Import Py.

Notation "x <- m ;; k" := (bind m (fun x => k))
  (at level 61, m at next level, right associativity).
Notation "' pat <- m ;; k" := (bind m (fun x => match x with pat => k end))
  (at level 61, pat pattern, m at next level, right associativity).

(* ------------------------------------------------------------------ *)
(** ** Sample blocks and second-order sections                         *)
(* ------------------------------------------------------------------ *)

(** A one-dimensional array of samples. *)
Definition block : Type := list R.

(** One row [b0 b1 b2 a0 a1 a2] of an SOS array. *)
Record biquad : Type := Biquad {
  b0 : R; b1 : R; b2 : R;
  a0 : R; a1 : R; a2 : R
}.

(** An SOS array: one chain entry, made of one or more rows. *)
Definition sos : Type := list biquad.

(** The filter state of one chain entry, shape (rows, 2). *)
Definition sos_state : Type := list (R * R).

(** Elementwise [x + y] and [x * c] on arrays of equal shape. *)
Definition vadd (x y : block) : block :=
  map (fun p => fst p + snd p) (combine x y).

Definition vscale (x : block) (c : R) : block :=
  map (fun v => v * c) x.

(** [scipy.signal.sosfilt]'s inner loop for one sample: every row is a
    transposed direct-form II biquad, fed by the row before it. *)
Fixpoint sos_sample (s : sos) (z : sos_state) (x_cur : R) : R * sos_state :=
  match s, z with
  | q :: s', (z0, z1) :: z' =>
      let x_new := b0 q * x_cur + z0 in
      let z0' := b1 q * x_cur - a1 q * x_new + z1 in
      let z1' := b2 q * x_cur - a2 q * x_new in
      let (y, zs) := sos_sample s' z' x_new in
      (y, (z0', z1') :: zs)
  | _, _ => (x_cur, [])
  end.

(** The sample loop of [sosfilt]: the state left by one sample is the state
    the next one starts from. *)
Fixpoint sosfilt_run (s : sos) (x : block) (z : sos_state) : block * sos_state :=
  match x with
  | [] => ([], z)
  | v :: x' =>
      let (y, z') := sos_sample s z v in
      let (ys, zf) := sosfilt_run s x' z' in
      (y :: ys, zf)
  end.

Definition a0_is_one (q : biquad) : bool :=
  if Req_dec_T (a0 q) 1 then true else false.

(** [sosfilt(sos, x, zi=zi)], returning [(y, zf)].  SciPy rejects an SOS
    array whose [a0] column is not all ones and a [zi] whose shape is not
    (rows, 2). *)
Definition sosfilt (s : sos) (x : block) (z : sos_state) : result (block * sos_state) :=
  if negb (forallb a0_is_one s) then Raise ValueError
  else if negb (Nat.eqb (length z) (length s)) then Raise ValueError
  else Ok (sosfilt_run s x z).

(* ------------------------------------------------------------------ *)
(** ** The stream engine: [AudioProcessor._process]                    *)
(* ------------------------------------------------------------------ *)

(** The fields of [AudioProcessor] that [_process] reads and writes. *)
Record AudioProcessor : Type := MkAudioProcessor {
  samplerate : Z;
  frame_size : Z;
  sos_chain : list sos;
  zi : list sos_state;
  bass_idx : nat
}.

Definition set_zi (self : AudioProcessor) (zi' : list sos_state) : AudioProcessor :=
  MkAudioProcessor (samplerate self) (frame_size self) (sos_chain self) zi' (bass_idx self).

(** [lst[i]] as an expression. *)
Definition list_get {A : Type} (l : list A) (i : nat) : result A :=
  match nth_error l i with
  | Some v => Ok v
  | None => Raise IndexError
  end.

(** [lst[i] = v], at an index that was just read. *)
Fixpoint list_set {A : Type} (l : list A) (i : nat) (v : A) : list A :=
  match l, i with
  | [], _ => []
  | _ :: l', O => v :: l'
  | a :: l', S i' => a :: list_set l' i' v
  end.

(** [enumerate(lst)], counting from [k]. *)
Fixpoint enumerate_from {A : Type} (k : nat) (l : list A) : list (nat * A) :=
  match l with
  | [] => []
  | a :: l' => (k, a) :: enumerate_from (S k) l'
  end.

Definition enumerate {A : Type} (l : list A) : list (nat * A) :=
  enumerate_from 0 l.

(** The body of [for i, sos in enumerate(self.sos_chain)], carrying the
    working signal [x] and the list [self.zi]. *)
Fixpoint process_loop (bass : nat) (secs : list (nat * sos))
    (x : block) (zs : list sos_state) : result (block * list sos_state) :=
  match secs with
  | [] => Ok (x, zs)
  | (i, s) :: rest =>
      if Nat.eqb i bass then
        z <- list_get zs i ;;
        '(low, z1) <- sosfilt s x z ;;
        let zs1 := list_set zs i z1 in
        z' <- list_get zs1 i ;;
        '(x', z2) <- sosfilt s x z' ;;
        let zs2 := list_set zs1 i z2 in
        process_loop bass rest (vadd x' (vscale low 2)) zs2
      else
        z <- list_get zs i ;;
        '(x', z1) <- sosfilt s x z ;;
        process_loop bass rest x' (list_set zs i z1)
  end.

(** The filter cascade of [_process] (lines 124-131). *)
Definition cascade (self : AudioProcessor) (indata : block)
  : result (block * list sos_state) :=
  process_loop (bass_idx self) (enumerate (sos_chain self)) indata (zi self).

Fixpoint Rsum (l : list R) : R :=
  match l with
  | [] => 0
  | v :: l' => v + Rsum l'
  end.

(** [np.mean(x)]. *)
Definition mean (x : block) : R := Rsum x / INR (length x).

(** [np.sqrt(np.mean(x ** 2))]. *)
Definition rms (x : block) : R := sqrt (mean (map (fun v => v ^ 2) x)).

(** [10 ** (-45 / 20)]. *)
Definition gate_threshold : R := Rpower 10 (-45 / 20).

(** Lines 134-136: the noise gate. *)
Definition noise_gate (x : block) : block :=
  if Rlt_dec (rms x) gate_threshold then vscale x 0 else x.

(** [AudioProcessor._process]: the output block and the engine with its
    filter states advanced. *)
Definition _process (self : AudioProcessor) (indata : block)
  : result (block * AudioProcessor) :=
  '(x, zs) <- cascade self indata ;;
  Ok (noise_gate x, set_zi self zs).

(** The series path as the design describes it: every section filters the
    signal once, in chain order, each against its own state. *)
Fixpoint series (secs : list sos) (zs : list sos_state) (x : block)
  : block * list sos_state :=
  match secs, zs with
  | s :: secs', z :: zs' =>
      let (y, z') := sosfilt_run s x z in
      let (out, zs'') := series secs' zs' y in
      (out, z' :: zs'')
  | _, _ => (x, zs)
  end.

(** The bass-boost branch as the design describes it: a parallel tap [low]
    that advances the state, then the in-series continuation from the state
    the tap left, mixed as [x + 2.0 * low]. *)
Definition bass_branch (s : sos) (z : sos_state) (x : block) : block * sos_state :=
  let (low, z_tap) := sosfilt_run s x z in
  let (x', z_series) := sosfilt_run s x z_tap in
  (vadd x' (vscale low 2), z_series).

(** A chain entry and its state fit together: the [a0] column is all ones
    and the state has one pair per row. *)
Definition fits (s : sos) (z : sos_state) : Prop :=
  forallb a0_is_one s = true /\ length z = length s.

(** The engines [_process] is meant for: every chain entry fits its state
    and [bass_idx] points into the chain. *)
Definition well_formed (self : AudioProcessor) : Prop :=
  Forall2 fits (sos_chain self) (zi self) /\
  (bass_idx self < length (sos_chain self))%nat.

(* ------------------------------------------------------------------ *)
(** ** Chain design: [_peaking_sos] and [design_eq]                    *)
(* ------------------------------------------------------------------ *)

Inductive btype : Type := Low | High.

(** The SciPy designers the chain is built from.
    - [butter N Wn btype fs] is [butter(N=N, Wn=Wn, btype=btype, fs=fs,
      output="sos")],
    - [iirnotch w0 Q fs] is [iirnotch(w0=w0, Q=Q, fs=fs)], the pair [(b, a)],
    - [sosfilt_zi sos] is [sosfilt_zi(sos)]. *)
Record SignalLib : Type := MkSignalLib {
  butter : nat -> R -> btype -> Z -> result sos;
  iirnotch : R -> R -> Z -> result ((R * R * R) * (R * R * R));
  sosfilt_zi : sos -> result sos_state
}.

(** [np.asarray([[b[0], b[1], b[2], a[0], a[1], a[2]]])]. *)
Definition sos_of_ba (b a : R * R * R) : sos :=
  match b, a with
  | (bb0, bb1, bb2), (aa0, aa1, aa2) => [Biquad bb0 bb1 bb2 aa0 aa1 aa2]
  end.

(** The bands the loop of lines 88-93 runs over: none for [None]. *)
Definition given_bands (extra_bands : option (list json)) : list json :=
  match extra_bands with
  | Some bands => bands
  | None => []
  end.

(** Python's true division of a [float] by the [int] sample rate. *)
Definition div_by_fs (num : R) (fs : Z) : result R :=
  if Z.eqb fs 0 then Raise ZeroDivisionError else Ok (num / IZR fs).

(** The coefficient computation shared, line for line, by [_peaking_sos]
    (lines 26-39) and by step 4 of [design_eq] (lines 67-80). *)
Definition peaking_rows (f0 gain_db Q : R) (fs : Z) : result sos :=
  let A := Rpower 10 (gain_db / 40) in
  w0 <- div_by_fs (2 * PI * f0) fs ;;
  let alpha := sin w0 / (2 * Q) in
  let b0 := 1 + alpha * A in
  let b1 := -2 * cos w0 in
  let b2 := 1 - alpha * A in
  let a0 := 1 + alpha / A in
  let a1 := -2 * cos w0 in
  let a2 := 1 - alpha / A in
  let b := (b0 / a0, b1 / a0, b2 / a0) in
  let a := (1, a1 / a0, a2 / a0) in
  Ok (sos_of_ba b a).

Definition _peaking_sos (f0 gain_db Q : R) (fs : Z) : result sos :=
  peaking_rows f0 gain_db Q fs.

(** The peaking section as the Audio EQ Cookbook states it:
    [A = 10^(G/40)], [w0 = 2 pi f0 / fs], [alpha = sin(w0) / (2 Q)], the six
    coefficients divided by [a0], and [a0] itself set to 1. *)
Definition cookbook_peaking (f0 G Q fs : R) : biquad :=
  let A := Rpower 10 (G / 40) in
  let w0 := 2 * PI * f0 / fs in
  let alpha := sin w0 / (2 * Q) in
  let a0 := 1 + alpha / A in
  Biquad ((1 + alpha * A) / a0) (-2 * cos w0 / a0) ((1 - alpha * A) / a0)
         1 (-2 * cos w0 / a0) ((1 - alpha / A) / a0).

Section Design.

Variable lib : SignalLib.

(** [float(s)] on a string: [None] stands for [ValueError]. *)
Variable float_of_string : string -> option R.

(** [float(v)] on a value read from a preset. *)
Definition py_float (v : json) : result R :=
  match v with
  | JNum r => Ok r
  | JBool b => Ok (if b then 1 else 0)
  | JStr s =>
      match float_of_string s with
      | Some r => Ok r
      | None => Raise ValueError
      end
  | JNull | JArr _ | JObj _ => Raise TypeError
  end.

(** [band[key]]. *)
Definition subscript (band : json) (key : string) : result json :=
  match band with
  | JObj d =>
      match dict_lookup key d with
      | Some v => Ok v
      | None => Raise KeyError
      end
  | _ => Raise TypeError
  end.

(** [band.get(key, default)]. *)
Definition get_method (band : json) (key : string) (default : json) : result json :=
  match band with
  | JObj d => Ok (dict_get key default d)
  | _ => Raise AttributeError
  end.

(** The three conversions of lines 90-92, in source order. *)
Definition band_params (band : json) : result (R * R * R) :=
  v <- subscript band "freq" ;;
  f0 <- py_float v ;;
  g <- get_method band "gain_db" (JNum 6) ;;
  gain <- py_float g ;;
  q <- get_method band "Q" (JNum 4) ;;
  Q <- py_float q ;;
  Ok (f0, gain, Q).

(** Lines 89-93: one peaking section appended per extra band. *)
Fixpoint extra_band_loop (fs : Z) (bands : list json) (sos_chain : list sos)
  : result (list sos) :=
  match bands with
  | [] => Ok sos_chain
  | band :: rest =>
      v <- subscript band "freq" ;;
      f0 <- py_float v ;;
      g <- get_method band "gain_db" (JNum 6) ;;
      gain <- py_float g ;;
      q <- get_method band "Q" (JNum 4) ;;
      Q <- py_float q ;;
      s <- _peaking_sos f0 gain Q fs ;;
      extra_band_loop fs rest (sos_chain ++ [s])
  end.

(** [design_eq(fs, extra_bands)]. *)
Definition design_eq (fs : Z) (extra_bands : option (list json))
  : result (list sos) :=
  let sos_chain := [] in
  hp_sos <- butter lib 2 80 High fs ;;
  let sos_chain := sos_chain ++ [hp_sos] in
  '(b, a) <- iirnotch lib 60 30 fs ;;
  let sos_chain := sos_chain ++ [sos_of_ba b a] in
  bass_lp_sos <- butter lib 2 120 Low fs ;;
  let sos_chain := sos_chain ++ [bass_lp_sos] in
  presence_sos <- peaking_rows 3000 3 1 fs ;;
  let sos_chain := sos_chain ++ [presence_sos] in
  lp_sos <- butter lib 4 9000 Low fs ;;
  let sos_chain := sos_chain ++ [lp_sos] in
  match extra_bands with
  | None | Some [] => Ok sos_chain
  | Some bands => extra_band_loop fs bands sos_chain
  end.

(** One chain entry per extra band: the band's three numbers and the
    peaking section computed from them. *)
Definition section_of_band (fs : Z) (band : json) (s : sos) : Prop :=
  exists f0 gain Q,
    band_params band = Ok (f0, gain, Q) /\ _peaking_sos f0 gain Q fs = Ok s.

Fixpoint map_result {A B : Type} (f : A -> result B) (l : list A) : result (list B) :=
  match l with
  | [] => Ok []
  | a :: l' => b <- f a ;; bs <- map_result f l' ;; Ok (b :: bs)
  end.

(** [AudioProcessor.__init__] (lines 113-119). *)
Definition AudioProcessor_init (samplerate frame_size : Z)
    (preset_bands : option (list json)) : result AudioProcessor :=
  chain <- design_eq samplerate preset_bands ;;
  zs <- map_result (sosfilt_zi lib) chain ;;
  Ok (MkAudioProcessor samplerate frame_size chain zs 2).

End Design.

(* ------------------------------------------------------------------ *)
(** ** Frequency detection: [_dominant_freq]                           *)
(* ------------------------------------------------------------------ *)

(** [np.hanning(M)]: [0.5 + 0.5 cos(pi n / (M - 1))] for
    [n = 1 - M, 3 - M, ..., M - 1]; [ones(1)] when [M = 1]. *)
Definition hanning (M : nat) : list R :=
  match M with
  | O => []
  | S O => [1]
  | _ =>
      map (fun i =>
             0.5 + 0.5 * cos (PI * IZR (1 - Z.of_nat M + 2 * Z.of_nat i)
                              / IZR (Z.of_nat M - 1)))
          (seq 0 M)
  end.

(** Elementwise product of two arrays of equal length. *)
Definition vmul (x y : list R) : list R :=
  map (fun p => fst p * snd p) (combine x y).

(** Bin [k] of the discrete Fourier transform, as (real, imaginary). *)
Definition dft_bin (x : list R) (k : nat) : R * R :=
  let N := INR (length x) in
  (Rsum (map (fun p => snd p * cos (2 * PI * INR k * INR (fst p) / N)) (enumerate x)),
   - Rsum (map (fun p => snd p * sin (2 * PI * INR k * INR (fst p) / N)) (enumerate x))).

(** [np.fft.rfft(x)]: bins [0 .. n/2]; NumPy refuses an empty input. *)
Definition rfft (x : list R) : result (list (R * R)) :=
  match x with
  | [] => Raise ValueError
  | _ => Ok (map (dft_bin x) (seq 0 (length x / 2 + 1)))
  end.

(** [np.abs] of a complex number. *)
Definition cabs (c : R * R) : R := sqrt (fst c * fst c + snd c * snd c).

(** [np.fft.rfftfreq(n, d)]: [arange(0, n // 2 + 1) * (1.0 / (n * d))]. *)
Definition rfftfreq (n : nat) (d : R) : list R :=
  let val := 1 / (INR n * d) in
  map (fun k => INR k * val) (seq 0 (n / 2 + 1)).

(** [np.argmax]: the first index that holds the greatest value. *)
Fixpoint argmax_from (best_i : nat) (best : R) (i : nat) (l : list R) : nat :=
  match l with
  | [] => best_i
  | v :: l' =>
      if Rlt_dec best v then argmax_from i v (S i) l'
      else argmax_from best_i best (S i) l'
  end.

Definition argmax (l : list R) : nat :=
  match l with
  | [] => O
  | v :: l' => argmax_from 0 v 1 l'
  end.

(** The absolute floor of line 33. *)
Definition quiet_floor : R := 1 / 10000.

(** The magnitude spectrum of lines 29-30. *)
Definition magnitude_spectrum (x : block) : result (list R) :=
  let xw := vmul x (hanning (length x)) in
  spec <- rfft xw ;;
  Ok (map cabs spec).

(** [_dominant_freq(x, fs)]: [Ok None] is the Python [None]. *)
Definition _dominant_freq (x : block) (fs : Z) : result (option R) :=
  let xw := vmul x (hanning (length x)) in
  mag <- magnitude_spectrum x ;;
  d <- (if Z.eqb fs 0 then Raise ZeroDivisionError else Ok (1 / IZR fs)) ;;
  let freqs := rfftfreq (length xw) d in
  let idx := argmax mag in
  if Rlt_dec (nth idx mag 0) quiet_floor then Ok None
  else Ok (Some (nth idx freqs 0)).

(* ------------------------------------------------------------------ *)
(** ** Presets: [save_preset] and [load_preset]                        *)
(* ------------------------------------------------------------------ *)

(** What a file holds: the text [json.dumps] makes of a value, kept as the
    value it parses back to, or a text that [json.loads] rejects. *)
Inductive file_content : Type :=
| Document (value : json)
| NotJson (text : string).

(** The files of interest, the most recent write first. *)
Definition files : Type := list (string * file_content).

Fixpoint read_text (fs : files) (path : string) : result file_content :=
  match fs with
  | [] => Raise FileNotFoundError
  | (p, c) :: fs' => if String.eqb p path then Ok c else read_text fs' path
  end.

Definition write_text (fs : files) (path : string) (c : file_content) : files :=
  (path, c) :: fs.

Definition json_dumps (value : json) : file_content := Document value.

Definition json_loads (c : file_content) : result json :=
  match c with
  | Document value => Ok value
  | NotJson _ => Raise ValueError
  end.

Definition PRESET_VERSION : R := 1.

(** [save_preset(path, bands)]. *)
Definition save_preset (path : string) (bands : list json) (fs : files) : files :=
  let data := JObj [("version"%string, JNum PRESET_VERSION);
                    ("bands"%string, JArr bands)] in
  write_text fs path (json_dumps data).

(** [load_preset(path)]; only a [dict] has a [get] method. *)
Definition load_preset (path : string) (fs : files) : result json :=
  text <- read_text fs path ;;
  obj <- json_loads text ;;
  match obj with
  | JObj d => Ok (dict_get "bands" (JArr []) d)
  | _ => Raise AttributeError
  end.

(* ------------------------------------------------------------------ *)
(** ** The tuner session: [run_tuner]                                  *)
(* ------------------------------------------------------------------ *)

(** What the session writes to the console, one constructor per [print]
    call or [input] prompt of [tuner.py]. *)
Inductive message : Type :=
| Banner                                 (* lines 39-41 *)
| AskName                                (* the prompt of line 45 *)
| AskEnter                               (* the prompt of line 48 *)
| Recording                              (* line 19 *)
| RecordingDone                          (* line 22 *)
| NoDominantFreq                         (* line 52 *)
| Detected (freq : R) (name : string)    (* line 54 *)
| AskGain                                (* the prompt of line 57 *)
| InvalidGain                            (* line 60 *)
| AskQ                                   (* the prompt of line 64 *)
| InvalidQ                               (* line 67 *)
| NoBands                                (* line 73 *)
| PresetSaved (path : string) (count : nat).  (* line 77 *)

(** Write [msgs], then go on with a computation that writes some more. *)
Definition say {A : Type} (msgs : list message) (p : list message * A)
  : list message * A :=
  (msgs ++ fst p, snd p).

Section Tuner.

(** [str.strip] and [float(str)] ([None] stands for [ValueError]). *)
Variable strip : string -> string.
Variable float_of_string : string -> option R.

(** The microphone: [mic k] is what the [k]-th call of [_record_sample]
    returns. *)
Variable mic : nat -> block.

(** Lines 56-61 and 63-68: one numeric entry, read from [line].  An empty
    entry takes the default; an entry [float] rejects takes it too, after
    the notice of the [except ValueError] branch. *)
Definition read_entry (default : R) (notice : message) (line : string)
  : R * list message :=
  let s := strip line in
  if String.eqb s EmptyString then (default, [])
  else match float_of_string s with
       | Some v => (v, [])
       | None => (default, [notice])
       end.

Definition make_band (name : string) (freq gain_db Q : R) : json :=
  JObj [("name"%string, JStr name); ("freq"%string, JNum freq);
        ("gain_db"%string, JNum gain_db); ("Q"%string, JNum Q)].

(** The [while True] loop of lines 44-70.  [lines] is what remains of the
    standard input ([input] raises [EOFError] at its end), [k] counts the
    recordings made, [bands] is the list being accumulated.  The result
    is what was written to the console and how the loop ended. *)
Fixpoint tuner_loop (samplerate : Z) (lines : list string) (k : nat)
    (bands : list json) : list message * result (list json) :=
  say [AskName]
    match lines with
    | [] => ([], Raise EOFError)
    | l_name :: rest =>
        let name := strip l_name in
        if String.eqb name EmptyString then ([], Ok bands)
        else
          say [AskEnter]
            match rest with
            | [] => ([], Raise EOFError)
            | _ :: rest1 =>
                say [Recording; RecordingDone]
                  match _dominant_freq (mic k) samplerate with
                  | Raise e => ([], Raise e)
                  | Ok None =>
                      say [NoDominantFreq]
                          (tuner_loop samplerate rest1 (S k) bands)
                  | Ok (Some freq) =>
                      say [Detected freq name; AskGain]
                        match rest1 with
                        | [] => ([], Raise EOFError)
                        | l_gain :: rest2 =>
                            let (gain_db, notes_gain) :=
                              read_entry 6 InvalidGain l_gain in
                            say (notes_gain ++ [AskQ])
                              match rest2 with
                              | [] => ([], Raise EOFError)
                              | l_q :: rest3 =>
                                  let (Q, notes_q) :=
                                    read_entry 4 InvalidQ l_q in
                                  say notes_q
                                    (tuner_loop samplerate rest3 (S k)
                                       (bands ++ [make_band name freq gain_db Q]))
                              end
                        end
                  end
            end
    end.

(** [run_tuner(preset_path, samplerate)]: what it writes to the console,
    how the call ends and the files it leaves.  [sys.exit(1)] is
    [Raise (SystemExit 1)]. *)
Definition run_tuner (preset_path : string) (samplerate : Z)
    (lines : list string) (fs : files)
  : list message * result unit * files :=
  let (out, r) := tuner_loop samplerate lines 0 [] in
  match r with
  | Raise e => (Banner :: out, Raise e, fs)
  | Ok [] => (Banner :: out ++ [NoBands], Raise (SystemExit 1), fs)
  | Ok bands =>
      (Banner :: out ++ [PresetSaved preset_path (length bands)],
       Ok tt, save_preset preset_path bands fs)
  end.

End Tuner.

(* ------------------------------------------------------------------ *)
(** ** The observation buffer: [WaveSpectrogramViewer]                 *)
(* ------------------------------------------------------------------ *)

(** [deque.append] on a deque made with [maxlen]: append on the right, then
    drop the leftmost item if the deque grew past [maxlen]. *)
Definition deque_append {A : Type} (maxlen : Z) (d : list A) (item : A) : list A :=
  let d' := d ++ [item] in
  if Z.ltb maxlen (Z.of_nat (length d')) then tl d' else d'.

(** The fields of the viewer that hold audio. *)
Record WaveSpectrogramViewer : Type := MkViewer {
  sr : Z;
  nbuf : Z;
  pre_buf : list block;
  post_buf : list block
}.

(** [WaveSpectrogramViewer.__init__] (lines 16-19); [deque] refuses a
    negative [maxlen]. *)
Definition WaveSpectrogramViewer_init (samplerate buffer_seconds : Z)
  : result WaveSpectrogramViewer :=
  let n := (buffer_seconds * samplerate)%Z in
  if Z.ltb n 0 then Raise ValueError
  else Ok (MkViewer samplerate n [] []).

(** [add_data(pre, post)]. *)
Definition add_data (self : WaveSpectrogramViewer) (pre post : block)
  : WaveSpectrogramViewer :=
  MkViewer (sr self) (nbuf self)
           (deque_append (nbuf self) (pre_buf self) pre)
           (deque_append (nbuf self) (post_buf self) post).

(** The snapshot [_animate] takes under the lock (lines 77-78). *)
Definition snapshot (self : WaveSpectrogramViewer) : block * block :=
  (concat (pre_buf self), concat (post_buf self)).

(** [add_data] once per pair of a list of captured blocks. *)
Fixpoint add_all (self : WaveSpectrogramViewer) (blocks : list (block * block))
  : WaveSpectrogramViewer :=
  match blocks with
  | [] => self
  | (pre, post) :: rest => add_all (add_data self pre post) rest
  end.

(** The samples a buffer holds. *)
Definition held_samples (buf : list block) : nat := length (concat buf).

(* ------------------------------------------------------------------ *)
(** ** Reference instances of the parameters                           *)
(* ------------------------------------------------------------------ *)

(** What SciPy documents about the arguments of its designers: a digital
    [butter] needs [0 < Wn < fs/2] and raises [ValueError] otherwise;
    [iirnotch] accepts every such [w0]; [sosfilt_zi] is defined on every
    SOS array. *)
Definition range_checked (lib : SignalLib) : Prop :=
  (forall N Wn bt fs, 0 < Wn < IZR fs / 2 -> is_ok (butter lib N Wn bt fs)) /\
  (forall N Wn bt fs, ~ (0 < Wn < IZR fs / 2) -> butter lib N Wn bt fs = Raise ValueError) /\
  (forall w0 Q fs, 0 < w0 < IZR fs / 2 -> is_ok (iirnotch lib w0 Q fs)) /\
  (forall s, is_ok (sosfilt_zi lib s)).

(** What SciPy documents about the results of its designers: the [a0]
    column of a designed section is all ones, and [sosfilt_zi] returns one
    pair of values per row. *)
Definition normalised (lib : SignalLib) : Prop :=
  (forall N Wn bt fs s, butter lib N Wn bt fs = Ok s -> forallb a0_is_one s = true) /\
  (forall w0 Q fs b a, iirnotch lib w0 Q fs = Ok (b, a) -> fst (fst a) = 1) /\
  (forall s z, sosfilt_zi lib s = Ok z -> length z = length s).

(** A low- or high-pass biquad by the bilinear transform, [K = tan(pi Wn / fs)]. *)
Definition bilinear_biquad (bt : btype) (K Qf : R) : biquad :=
  let norm := 1 / (1 + K / Qf + K * K) in
  match bt with
  | Low => Biquad (K * K * norm) (2 * K * K * norm) (K * K * norm)
                  1 (2 * (K * K - 1) * norm) ((1 - K / Qf + K * K) * norm)
  | High => Biquad norm (-2 * norm) norm
                   1 (2 * (K * K - 1) * norm) ((1 - K / Qf + K * K) * norm)
  end.

(** A Butterworth design of even order [N] as [N/2] biquads, with SciPy's
    range check on [Wn]. *)
Definition textbook_butter (N : nat) (Wn : R) (bt : btype) (fs : Z) : result sos :=
  if Rlt_dec 0 Wn then
    if Rlt_dec Wn (IZR fs / 2) then
      Ok (map (fun k => bilinear_biquad bt (tan (PI * Wn / IZR fs))
                          (1 / (2 * cos (PI * (2 * INR k + 1) / (2 * INR N)))))
              (seq 0 (N / 2)))
    else Raise ValueError
  else Raise ValueError.

(** The notch design of [iirnotch], with its range check on [w0]. *)
Definition textbook_iirnotch (w0 Q : R) (fs : Z)
  : result ((R * R * R) * (R * R * R)) :=
  if Z.eqb fs 0 then Raise ZeroDivisionError
  else
    let w0n := 2 * w0 / IZR fs in
    if Rlt_dec 1 w0n then Raise ValueError
    else if Rlt_dec w0n 0 then Raise ValueError
    else
      let gain := 1 / (1 + tan (w0n / Q * PI / 2)) in
      Ok ((gain, -2 * cos (w0n * PI) * gain, gain),
          (1, -2 * gain * cos (w0n * PI), 2 * gain - 1)).

(** The state in which a constant unit input is in steady state: each row
    scaled by the DC gain of the rows before it. *)
Fixpoint steady_state (scale : R) (s : sos) : sos_state :=
  match s with
  | [] => []
  | q :: s' =>
      let g := (b0 q + b1 q + b2 q) / (a0 q + a1 q + a2 q) in
      let z1 := b2 q - a2 q * g in
      let z0 := b1 q - a1 q * g + z1 in
      (scale * z0, scale * z1) :: steady_state (scale * g) s'
  end.

Definition textbook_lib : SignalLib :=
  MkSignalLib textbook_butter textbook_iirnotch (fun s => Ok (steady_state 1 s)).

(** ASCII white space, as [str.strip] sees it. *)
Definition is_space (c : ascii) : bool :=
  let n := nat_of_ascii c in
  ((9 <=? n) && (n <=? 13) || (28 <=? n) && (n <=? 32))%nat.

Fixpoint lstrip (s : list ascii) : list ascii :=
  match s with
  | c :: s' => if is_space c then lstrip s' else s
  | [] => []
  end.

Definition ascii_strip (s : string) : string :=
  string_of_list_ascii
    (rev (lstrip (rev (lstrip (list_ascii_of_string s))))).

(** The integer fragment of [float(str)]: an optional sign and decimal
    digits. *)
Definition integer_float (s : string) : option R :=
  if String.eqb s EmptyString then None
  else option_map (fun d => IZR (Z.of_int d)) (NilEmpty.int_of_string s).

(** A section that passes its input through, a one-pole low-pass, and an
    engine with the design's shape built from them: five chain entries, the
    last of two rows, the low-pass at index 2, all states at rest. *)
Definition pass_through : biquad := Biquad 1 0 0 1 0 0.

Definition one_pole_lowpass : biquad := Biquad (1 / 2) 0 0 1 (- (1 / 2)) 0.

Definition bench_chain : list sos :=
  [[pass_through]; [pass_through]; [one_pole_lowpass]; [pass_through];
   [pass_through; pass_through]].

(** The states of the bench engine, [z] being the memory of its low-pass. *)
Definition bench_states (z : R) : list sos_state :=
  [[(0, 0)]; [(0, 0)]; [(z, 0)]; [(0, 0)]; [(0, 0); (0, 0)]].

Definition bench_engine_at (z : R) : AudioProcessor :=
  MkAudioProcessor 44100 1024 bench_chain (bench_states z) 2.

Definition bench_engine : AudioProcessor := bench_engine_at 0.

(** One captured block of the default stream: 1024 samples of silence. *)
Definition silent_frame : block := repeat 0 1024.

(** A preset file written by hand, with a version and nothing else. *)
Definition version_only : list (string * json) := [("version"%string, JNum 1)].

Definition hand_written : files := [("preset.json"%string, Document (JObj version_only))].

(** A band tuned above the Nyquist frequency of a 44100 Hz stream, with no
    gain and no Q, and one tuned below 0 Hz. *)
Definition band_above_nyquist : json := JObj [("freq"%string, JNum 30000)].

Definition band_below_zero : json :=
  JObj [("name"%string, JStr "hum"); ("freq"%string, JNum (-5));
        ("gain_db"%string, JNum 3); ("Q"%string, JNum 2)].

(** A session typed at the tuner: a sound named [hiss], ENTER, a gain and a
    Q that are not numbers, then the empty name that ends the session. *)
Definition typed_session : list string :=
  ["hiss"%string; EmptyString; "loud"%string; "narrow"%string; EmptyString].

(** A microphone that records a single sample of value 1 each time. *)
Definition unit_mic : nat -> block := fun _ => [1].

(* ------------------------------------------------------------------ *)
(** ** Further notions used by the properties below                    *)
(* ------------------------------------------------------------------ *)


(** A block of silence. *)
Definition silent (x : block) : Prop := Forall (fun v => v = 0) x.



Definition band_at_1000 : json :=
  JObj [("name"%string, JStr "s"); ("freq"%string, JNum 1000);
        ("gain_db"%string, JNum 6); ("Q"%string, JNum 2)].

(** A microphone that records half a second of silence at 8 Hz. *)
Definition dead_mic : nat -> block := fun _ => [0; 0; 0; 0].

(** Two sounds offered to a dead microphone, then the empty name. *)
Definition two_tries : list string :=
  ["hum"%string; EmptyString; "hiss"%string; EmptyString; EmptyString].

(** A session cut short: the input ends after the Q of the first sound. *)
Definition cut_short : list string :=
  ["hiss"%string; "go"%string; "3"%string; "2"%string].

(** The last [n] items of a list, all of them if there are fewer. *)
Definition lastn {A : Type} (n : nat) (l : list A) : list A :=
  skipn (length l - n) l.

(* ------------------------------------------------------------------ *)
(** ** The stream callback: [AudioProcessor._callback]                 *)
(* ------------------------------------------------------------------ *)




(* ------------------------------------------------------------------ *)
(** ** The spectrogram column of [_animate]: [_spec]                   *)
(* ------------------------------------------------------------------ *)

Definition nfft : nat := 256.

(** [signal[-nbuf:]]: the last [nbuf] samples; the whole signal when
    [nbuf] is 0, since [-0] is [0]. *)
Definition last_samples (nbuf : Z) (signal : block) : block :=
  if Z.eqb nbuf 0 then signal
  else if Z.ltb 0 nbuf then skipn (length signal - Z.to_nat nbuf) signal
  else skipn (Z.to_nat (- nbuf)) signal.

(** What [np.fft.rfft(a, n=n)] does to its input first: crop it to its
    first [n] samples, or pad it with zeros up to [n]. *)
Definition resize (n : nat) (a : block) : block :=
  firstn n (a ++ repeat 0 n).

(** [np.log10]. *)
Definition log10 (x : R) : R := ln x / ln 10.

(** [_spec(signal)] (lines 94-98), for a viewer with the given [nbuf]. *)
Definition _spec (nbuf : Z) (signal : block) : result (option (list R)) :=
  if Nat.ltb (length signal) nfft then Ok None
  else
    spec <- rfft (resize nfft (last_samples nbuf signal)) ;;
    let S := map cabs spec in
    Ok (Some (map (fun s => 20 * log10 (s + 1 / 1000000)) S)).

(** A viewer for 2 Hz and 1 second, and three captured pairs of blocks. *)
Definition tiny_viewer : WaveSpectrogramViewer := MkViewer 2 2 [] [].

Definition three_pairs : list (block * block) :=
  [([1], [10]); ([2], [20]); ([3], [30])].


(** The combination [x * c + y] of two blocks, sample by sample, and the
    same combination of two filter states and of two lists of states. *)
Definition mix (c : R) (x y : block) : block := vadd (vscale x c) y.

Definition mix_state (c : R) (z w : sos_state) : sos_state :=
  map (fun p => (fst (fst p) * c + fst (snd p), snd (fst p) * c + snd (snd p)))
      (combine z w).

Definition mix_states (c : R) (zs ws : list sos_state) : list sos_state :=
  map (fun p => mix_state c (fst p) (snd p)) (combine zs ws).

(** Every filter state multiplied by [c]. *)
Definition scale_states (c : R) (zs : list sos_state) : list sos_state :=
  map (map (fun p : R * R => (fst p * c, snd p * c))) zs.

(* ================================================================== *)
(** * Properties                                                       *)
(* ================================================================== *)

(** ** Lists, arrays and the error monad *)

Lemma list_get_middle {A : Type} (l1 : list A) (a : A) (l2 : list A) :
  list_get (l1 ++ a :: l2) (length l1) = Ok a.
Proof.
  unfold list_get. now rewrite nth_error_app2, Nat.sub_diag by lia.
Qed.

Lemma list_set_middle {A : Type} (l1 : list A) (a v : A) (l2 : list A) :
  list_set (l1 ++ a :: l2) (length l1) v = l1 ++ v :: l2.
Proof.
  induction l1 as [|h l1 IH]; simpl; [reflexivity | now rewrite IH].
Qed.

Lemma enumerate_from_app {A : Type} (l1 l2 : list A) (k : nat) :
  enumerate_from k (l1 ++ l2)
  = enumerate_from k l1 ++ enumerate_from (k + length l1) l2.
Proof.
  revert k; induction l1 as [|a l1 IH]; intro k; simpl.
  - now rewrite Nat.add_0_r.
  - rewrite IH. do 3 f_equal. lia.
Qed.

Lemma vscale_length (x : block) (c : R) : length (vscale x c) = length x.
Proof. unfold vscale. apply length_map. Qed.

Lemma vadd_length (x y : block) :
  length x = length y -> length (vadd x y) = length x.
Proof.
  intro H. unfold vadd. rewrite length_map, length_combine. lia.
Qed.

(** ** One filter pass *)

Lemma sos_sample_state_length (s : sos) : forall (z : sos_state) (v : R),
  length z = length s -> length (snd (sos_sample s z v)) = length s.
Proof.
  induction s as [|q s IH]; intros z v H.
  - reflexivity.
  - destruct z as [|[z0 z1] z]; [discriminate|].
    simpl in H. injection H as H. simpl.
    specialize (IH z (b0 q * v + z0) H).
    destruct (sos_sample s z (b0 q * v + z0)) as [y zs]. simpl in *. lia.
Qed.

Lemma sosfilt_run_lengths (s : sos) (x : block) : forall z : sos_state,
  length z = length s ->
  length (fst (sosfilt_run s x z)) = length x /\
  length (snd (sosfilt_run s x z)) = length s.
Proof.
  induction x as [|v x IH]; intros z H; simpl.
  - auto.
  - pose proof (sos_sample_state_length s z v H) as Hs.
    destruct (sos_sample s z v) as [y z']. simpl in Hs.
    destruct (IH z' Hs) as [H1 H2].
    destruct (sosfilt_run s x z') as [ys zf]. simpl in *. auto.
Qed.

Lemma sosfilt_fits (s : sos) (x : block) (z : sos_state) :
  fits s z -> sosfilt s x z = Ok (sosfilt_run s x z).
Proof.
  intros [Ha Hl]. unfold sosfilt. rewrite Ha, Hl, Nat.eqb_refl. reflexivity.
Qed.

Lemma fits_after_run (s : sos) (x : block) (z : sos_state) :
  fits s z -> fits s (snd (sosfilt_run s x z)).
Proof.
  intros [Ha Hl]. split; [exact Ha|].
  now apply sosfilt_run_lengths.
Qed.

(** ** The cascade loop *)

(** A run of sections that does not contain the bass index is filtered in
    series: each entry once, each against its own state. *)
Lemma process_loop_series (bass : nat) (more : list (nat * sos)) (zrest : list sos_state) :
  forall (secs : list sos) (zseg : list sos_state),
    Forall2 fits secs zseg ->
    forall (zdone : list sos_state) (x : block),
      (bass < length zdone \/ length zdone + length secs <= bass)%nat ->
      process_loop bass (enumerate_from (length zdone) secs ++ more) x
                   (zdone ++ zseg ++ zrest)
      = let (y, zseg') := series secs zseg x in
        process_loop bass more y (zdone ++ zseg' ++ zrest).
Proof.
  induction 1 as [|s z secs zseg Hfit _ IH]; intros zdone x Hb.
  - reflexivity.
  - cbn [enumerate_from app process_loop series].
    assert (Hne : Nat.eqb (length zdone) bass = false).
    { apply Nat.eqb_neq. simpl in Hb. lia. }
    rewrite Hne, list_get_middle. cbn [bind].
    rewrite (sosfilt_fits s x z Hfit). cbn [bind].
    destruct (sosfilt_run s x z) as [y z1].
    rewrite list_set_middle.
    replace (zdone ++ z1 :: zseg ++ zrest) with ((zdone ++ [z1]) ++ zseg ++ zrest)
      by (now rewrite <- app_assoc).
    replace (S (length zdone)) with (length (zdone ++ [z1]))
      by (rewrite length_app; simpl; lia).
    rewrite IH by (rewrite length_app; simpl in *; lia).
    destruct (series secs zseg y) as [out zs''].
    now rewrite <- app_assoc.
Qed.

(** The cascade loop, unfolded around the section at [bass_idx]. *)
Lemma cascade_unfold :
  forall (self : AudioProcessor) (pre : list sos) (bass : sos) (post : list sos)
         (zpre : list sos_state) (zb : sos_state) (zpost : list sos_state)
         (indata : block),
    sos_chain self = pre ++ bass :: post ->
    zi self = zpre ++ zb :: zpost ->
    length pre = bass_idx self ->
    Forall2 fits pre zpre -> fits bass zb -> Forall2 fits post zpost ->
    let (x1, zpre') := series pre zpre indata in
    let (low, z_tap) := sosfilt_run bass x1 zb in
    let (x2, z_series) := sosfilt_run bass x1 z_tap in
    let (x3, zpost') := series post zpost (vadd x2 (vscale low 2)) in
    cascade self indata = Ok (x3, zpre' ++ z_series :: zpost').
Proof.
  intros self pre bass post zpre zb zpost indata Hc Hz Hidx Hpre Hb Hpost.
  unfold cascade, enumerate. rewrite Hc, Hz, <- Hidx.
  pose proof (Forall2_length Hpre) as Hlen.
  rewrite enumerate_from_app. cbn [enumerate_from Nat.add].
  change (enumerate_from 0 pre) with (enumerate_from (length (@nil sos_state)) pre).
  change (zpre ++ zb :: zpost) with ([] ++ zpre ++ zb :: zpost).
  rewrite process_loop_series by (simpl; auto; right; lia).
  assert (Hseg : forall zs, Forall2 fits pre zs ->
                 length (snd (series pre zs indata)) = length pre).
  { clear. revert indata. induction pre as [|s pre IH]; intros x zs H.
    - inversion H; reflexivity.
    - inversion H as [|? z ? zs' Hf Hr]; subst. simpl.
      destruct (sosfilt_run s x z) as [y z'].
      specialize (IH y zs' Hr). destruct (series pre zs' y). simpl in *. lia. }
  specialize (Hseg zpre Hpre).
  destruct (series pre zpre indata) as [x1 zpre']. simpl in Hseg.
  cbn [app process_loop].
  rewrite Nat.eqb_refl, <- Hseg, list_get_middle. cbn [bind].
  rewrite (sosfilt_fits bass x1 zb Hb). cbn [bind].
  pose proof (fits_after_run bass x1 zb Hb) as Hb'.
  destruct (sosfilt_run bass x1 zb) as [low z_tap]. simpl in Hb'.
  rewrite list_set_middle, list_get_middle. cbn [bind].
  rewrite (sosfilt_fits bass x1 z_tap Hb'). cbn [bind].
  destruct (sosfilt_run bass x1 z_tap) as [x2 z_series].
  rewrite list_set_middle.
  pose proof (process_loop_series (length zpre') [] [] post zpost Hpost
                (zpre' ++ [z_series]) (vadd x2 (vscale low 2))) as Hs.
  rewrite length_app, !app_nil_r, <- app_assoc in Hs. cbn [length app] in Hs.
  rewrite Nat.add_1_r in Hs.
  rewrite Hs by (left; lia).
  destruct (series post zpost (vadd x2 (vscale low 2))) as [x3 zpost'].
  cbn [process_loop]. rewrite ?app_nil_r, <- ?app_assoc. reflexivity.
Qed.


(** *** The bench engine, evaluated *)

Lemma a0_is_one_true (q : biquad) : a0 q = 1 -> a0_is_one q = true.
Proof.
  intro H. unfold a0_is_one. destruct (Req_dec_T (a0 q) 1); [reflexivity | contradiction].
Qed.

Lemma fits_pass_through : fits [pass_through] [(0, 0)].
Proof. split; [cbn; now rewrite a0_is_one_true | reflexivity]. Qed.

Lemma fits_pass_through_twice : fits [pass_through; pass_through] [(0, 0); (0, 0)].
Proof. split; [cbn; now rewrite a0_is_one_true | reflexivity]. Qed.

Lemma fits_one_pole (z : R) : fits [one_pole_lowpass] [(z, 0)].
Proof. split; [cbn; now rewrite a0_is_one_true | reflexivity]. Qed.

Ltac prove_fits :=
  first [ exact fits_pass_through | exact fits_pass_through_twice
        | apply fits_one_pole ].

(** Equal results of a filter run, up to real arithmetic on the samples. *)
Ltac same_samples :=
  repeat match goal with
         | |- Ok _ = Ok _ => f_equal
         | |- (_, _) = (_, _) => f_equal
         | |- _ :: _ = _ :: _ => f_equal
         | |- MkAudioProcessor _ _ _ _ _ = MkAudioProcessor _ _ _ _ _ => f_equal
         | |- @eq R _ _ => lra
         | |- @eq (list _) [] [] => reflexivity
         end.

Ltac run_filters H :=
  cbn [series sosfilt_run sos_sample vadd vscale map combine fst snd
       b0 b1 b2 a1 a2 pass_through one_pole_lowpass] in H.

Ltac bench_cascade z indata :=
  let H := fresh "H" in
  pose proof (cascade_unfold (bench_engine_at z)
                [[pass_through]; [pass_through]] [one_pole_lowpass]
                [[pass_through]; [pass_through; pass_through]]
                [[(0, 0)]; [(0, 0)]] [(z, 0)] [[(0, 0)]; [(0, 0); (0, 0)]]
                indata eq_refl eq_refl eq_refl) as H;
  run_filters H;
  rewrite H by (repeat first [apply Forall2_nil | apply Forall2_cons | prove_fits]);
  unfold bench_states; cbn [app]; same_samples.

(** One sample [v] through the cascade of the bench engine. *)
Lemma bench_cascade_one (z v : R) :
  cascade (bench_engine_at z) [v]
  = Ok ([(v / 2 + (v / 2 + z) / 2) + 2 * (v / 2 + z)],
        bench_states ((v / 2 + (v / 2 + z) / 2) / 2)).
Proof. bench_cascade z [v]. Qed.

(** Two samples through the cascade of the bench engine at rest. *)
Lemma bench_cascade_two :
  cascade bench_engine [1; 1]
  = Ok ([15 / 8; 39 / 16], bench_states (15 / 32)).
Proof. unfold bench_engine. bench_cascade 0 [1; 1]. Qed.

(** ** The noise gate *)

Lemma gate_threshold_pos : 0 < gate_threshold.
Proof. unfold gate_threshold, Rpower. apply exp_pos. Qed.

Lemma gate_threshold_lt_1 : gate_threshold < 1.
Proof.
  unfold gate_threshold.
  rewrite <- (Rpower_O 10) by lra.
  apply Rpower_lt; lra.
Qed.

(** The threshold is the fourth root of [10^-9], about 0.0056234. *)
Lemma gate_threshold_pow4 : gate_threshold ^ 4 = / 10 ^ 9.
Proof.
  unfold gate_threshold.
  rewrite <- (Rpower_pow 4) by (unfold Rpower; apply exp_pos).
  rewrite Rpower_mult.
  replace (-45 / 20 * INR 4) with (- INR 9) by (simpl; lra).
  rewrite Rpower_Ropp, Rpower_pow by lra. reflexivity.
Qed.

Lemma gate_threshold_bounds : 56 / 10000 < gate_threshold < 57 / 10000.
Proof.
  pose proof gate_threshold_pos as Hp.
  pose proof gate_threshold_pow4 as H4.
  assert (H9 : / 10 ^ 9 = 1 / 1000000000) by (field_simplify; lra).
  rewrite H9 in H4. clear H9.
  split.
  - destruct (Rlt_dec (56 / 10000) gate_threshold) as [|Hn]; [assumption|exfalso].
    apply Rnot_lt_le in Hn.
    assert (gate_threshold ^ 4 <= (56 / 10000) ^ 4) by (apply pow_incr; lra).
    lra.
  - destruct (Rlt_dec gate_threshold (57 / 10000)) as [|Hn]; [assumption|exfalso].
    apply Rnot_lt_le in Hn.
    assert ((57 / 10000) ^ 4 <= gate_threshold ^ 4) by (apply pow_incr; lra).
    lra.
Qed.

Lemma Rsum_zeros (l : list R) : Forall (fun v => v = 0) l -> Rsum l = 0.
Proof.
  induction 1 as [|v l Hv _ IH]; simpl; [reflexivity | lra].
Qed.

Lemma rms_zeros (x : block) : Forall (fun v => v = 0) x -> rms x = 0.
Proof.
  intro H. unfold rms, mean.
  rewrite Rsum_zeros.
  - unfold Rdiv. rewrite Rmult_0_l. apply sqrt_0.
  - apply Forall_map. eapply Forall_impl; [|exact H].
    intros v Hv. simpl in Hv. subst v. simpl. lra.
Qed.

Lemma vscale_zero (x : block) : vscale x 0 = repeat 0 (length x).
Proof.
  induction x as [|v x IH]; simpl; [reflexivity|].
  rewrite IH. f_equal. lra.
Qed.

Lemma repeat_all_zero (n : nat) : Forall (fun v : R => v = 0) (repeat 0 n).
Proof. induction n; simpl; constructor; auto. Qed.

(** A block whose mean square is at least 1 passes the gate. *)
Lemma loud_block_passes (x : block) :
  1 <= mean (map (fun v => v ^ 2) x) -> noise_gate x = x.
Proof.
  intro H. unfold noise_gate.
  destruct (Rlt_dec (rms x) gate_threshold) as [Hlt|]; [exfalso|reflexivity].
  unfold rms in Hlt.
  pose proof (sqrt_le_1_alt _ _ H) as Hs. rewrite sqrt_1 in Hs.
  pose proof gate_threshold_lt_1. lra.
Qed.

(** C2: after the cascade, [_process] returns the gated block; the gate
    yields an all-zero block of the same length when the RMS of the
    filtered block is strictly below [10^(-45/20)], and the filtered block
    itself, untouched, when the RMS is strictly above it; on a non-empty
    block the output is all zeros exactly when the RMS is strictly below
    the threshold. *)
Theorem process_gates_on_rms :
  forall (self : AudioProcessor) (indata x : block) (zs : list sos_state),
    cascade self indata = Ok (x, zs) ->
    _process self indata = Ok (noise_gate x, set_zi self zs) /\
    (rms x < gate_threshold -> noise_gate x = repeat 0 (length x)) /\
    (gate_threshold < rms x -> noise_gate x = x) /\
    (x <> [] ->
     (Forall (fun v => v = 0) (noise_gate x) <-> rms x < gate_threshold)).
Proof.
  intros self indata x zs Hc.
  split; [unfold _process; rewrite Hc; reflexivity|].
  unfold noise_gate.
  destruct (Rlt_dec (rms x) gate_threshold) as [Hlt|Hge].
  - split; [intros _; apply vscale_zero|].
    split; [intro; lra|].
    intros _. split; [auto|]. intros _. rewrite vscale_zero. apply repeat_all_zero.
  - split; [intro; contradiction|].
    split; [reflexivity|].
    intros _. split; [|intro; contradiction].
    intro Hz. rewrite (rms_zeros x Hz). apply gate_threshold_pos.
Qed.

Lemma bench_block_is_loud : 1 <= mean (map (fun v => v ^ 2) [15 / 8; 39 / 16]).
Proof. unfold mean. simpl. lra. Qed.

Lemma process_gates_on_rms_witness :
  cascade bench_engine [1; 1] = Ok ([15 / 8; 39 / 16], bench_states (15 / 32)) /\
  _process bench_engine [1; 1]
  = Ok ([15 / 8; 39 / 16], set_zi bench_engine (bench_states (15 / 32))) /\
  (Forall (fun v => v = 0) [15 / 8; 39 / 16]
   <-> rms [15 / 8; 39 / 16] < gate_threshold).
Proof.
  pose proof (process_gates_on_rms bench_engine [1; 1] [15 / 8; 39 / 16]
                (bench_states (15 / 32)) bench_cascade_two) as [Hp [_ [_ Hiff]]].
  rewrite (loud_block_passes _ bench_block_is_loud) in Hp, Hiff.
  split; [exact bench_cascade_two|].
  split; [exact Hp|].
  apply Hiff. discriminate.
Defined.


(** ** State continuity *)








(** ** The observation buffer *)

Lemma deque_append_room {A : Type} (maxlen : Z) (d : list A) (item : A) :
  (Z.of_nat (length d) < maxlen)%Z -> deque_append maxlen d item = d ++ [item].
Proof.
  intro H. unfold deque_append.
  destruct (Z.ltb_spec maxlen (Z.of_nat (length (d ++ [item])))) as [Hlt|]; [|reflexivity].
  rewrite length_app in Hlt. simpl in Hlt. lia.
Qed.

(** A full deque drops its oldest item to take the new one. *)
Lemma deque_append_full {A : Type} (maxlen : Z) (oldest : A) (d : list A) (item : A) :
  Z.of_nat (length (oldest :: d)) = maxlen ->
  deque_append maxlen (oldest :: d) item = d ++ [item].
Proof.
  intro H. unfold deque_append.
  destruct (Z.ltb_spec maxlen (Z.of_nat (length ((oldest :: d) ++ [item])))) as [|Hge].
  - reflexivity.
  - rewrite length_app in Hge. simpl in *. lia.
Qed.

(** What [maxlen] bounds is the number of items, that is, of blocks. *)
Lemma deque_append_bounded {A : Type} (maxlen : Z) (d : list A) (item : A) :
  (0 <= maxlen)%Z ->
  (Z.of_nat (length d) <= maxlen)%Z ->
  (Z.of_nat (length (deque_append maxlen d item)) <= maxlen)%Z.
Proof.
  intros H0 H. unfold deque_append.
  destruct (Z.ltb_spec maxlen (Z.of_nat (length (d ++ [item])))) as [Hlt|Hge].
  - destruct d as [|a d]; simpl in *; [lia|].
    rewrite length_app in *. simpl in *. lia.
  - exact Hge.
Qed.

Lemma add_data_block_bound (self : WaveSpectrogramViewer) (pre post : block) :
  (0 <= nbuf self)%Z ->
  (Z.of_nat (length (pre_buf self)) <= nbuf self)%Z ->
  (Z.of_nat (length (post_buf self)) <= nbuf self)%Z ->
  (Z.of_nat (length (pre_buf (add_data self pre post))) <= nbuf self)%Z /\
  (Z.of_nat (length (post_buf (add_data self pre post))) <= nbuf self)%Z.
Proof.
  intros H0 H1 H2. simpl. split; now apply deque_append_bounded.
Qed.

Lemma add_all_keeps_everything (blocks : list (block * block)) :
  forall self : WaveSpectrogramViewer,
    (Z.of_nat (length (pre_buf self) + length blocks) <= nbuf self)%Z ->
    (Z.of_nat (length (post_buf self) + length blocks) <= nbuf self)%Z ->
    pre_buf (add_all self blocks) = pre_buf self ++ map fst blocks /\
    post_buf (add_all self blocks) = post_buf self ++ map snd blocks /\
    nbuf (add_all self blocks) = nbuf self.
Proof.
  induction blocks as [|[pre post] blocks IH]; intros self H1 H2.
  - simpl. now rewrite !app_nil_r.
  - cbn [add_all]. cbn [length] in H1, H2.
    destruct (IH (add_data self pre post)) as [Ep [Eq En]].
    + cbn [add_data pre_buf nbuf]. rewrite deque_append_room by lia.
      rewrite length_app. simpl. lia.
    + cbn [add_data post_buf nbuf]. rewrite deque_append_room by lia.
      rewrite length_app. simpl. lia.
    + rewrite Ep, Eq, En. cbn [add_data pre_buf post_buf nbuf map fst snd].
      rewrite !deque_append_room by lia.
      now rewrite <- !app_assoc.
Qed.

Lemma held_samples_repeat (frame : block) (n : nat) :
  held_samples (repeat frame n) = (n * length frame)%nat.
Proof.
  unfold held_samples. induction n as [|n IH]; simpl; [reflexivity|].
  rewrite length_app, IH. reflexivity.
Qed.

(** C8, on the code: a viewer made for 44100 Hz and 3 seconds has
    [nbuf = 132300], yet after 130 captured blocks of 1024 samples each of
    its two buffers holds all 130 blocks, 133120 samples: the deques bound
    the number of blocks, not of samples, and nothing has been evicted. *)
Theorem viewer_holds_more_samples_than_nbuf :
  exists v : WaveSpectrogramViewer,
    WaveSpectrogramViewer_init 44100 3 = Ok v /\
    nbuf v = 132300%Z /\
    let v' := add_all v (repeat (silent_frame, silent_frame) 130) in
    Z.of_nat (held_samples (pre_buf v')) = 133120%Z /\
    Z.of_nat (held_samples (post_buf v')) = 133120%Z /\
    Z.of_nat (length (fst (snapshot v'))) = 133120%Z /\
    (nbuf v' < Z.of_nat (held_samples (pre_buf v')))%Z.
Proof.
  eexists. split; [reflexivity|]. split; [reflexivity|].
  set (v := MkViewer 44100 (3 * 44100) [] []).
  destruct (add_all_keeps_everything (repeat (silent_frame, silent_frame) 130) v)
    as [Ep [Eq En]].
  - rewrite repeat_length. cbn [pre_buf v length nbuf]. lia.
  - rewrite repeat_length. cbn [post_buf v length nbuf]. lia.
  - cbv zeta. unfold snapshot. cbn [fst].
    fold (held_samples (pre_buf (add_all v (repeat (silent_frame, silent_frame) 130)))).
    rewrite Ep, Eq, En. cbn [pre_buf post_buf v app nbuf].
    rewrite !map_repeat. cbn [fst snd].
    rewrite held_samples_repeat. unfold silent_frame. rewrite repeat_length.
    rewrite Nat2Z.inj_mul.
    repeat split; reflexivity.
Qed.

(** ** Presets *)

Lemma dict_lookup_skip (key k : string) (v : json) (d1 d2 : list (string * json)) :
  k <> key ->
  dict_lookup key (d1 ++ (k, v) :: d2) = dict_lookup key (d1 ++ d2).
Proof.
  intro Hk. induction d1 as [|[k1 v1] d1 IH]; simpl.
  - destruct (String.eqb_spec k key); [contradiction|reflexivity].
  - now rewrite IH.
Qed.

Lemma load_preset_parsed (path : string) (fs : files) (d : list (string * json)) :
  read_text fs path = Ok (Document (JObj d)) ->
  load_preset path fs = Ok (dict_get "bands" (JArr []) d).
Proof.
  intros Hr. unfold load_preset. rewrite Hr. reflexivity.
Qed.

(** C10: when the preset file parses to an object, [load_preset] returns
    the empty list if the object has no ["bands"] key and the stored value,
    as it is, if it has one; a further top-level field under another key
    does not change the result. *)
Theorem load_preset_bands_or_empty :
  forall (path : string) (fs : files) (d : list (string * json)),
    read_text fs path = Ok (Document (JObj d)) ->
    (dict_lookup "bands" d = None -> load_preset path fs = Ok (JArr [])) /\
    (forall v, dict_lookup "bands" d = Some v -> load_preset path fs = Ok v) /\
    (forall d1 d2 k v path' fs',
        d = d1 ++ d2 -> k <> "bands"%string ->
        read_text fs' path' = Ok (Document (JObj (d1 ++ (k, v) :: d2))) ->
        load_preset path' fs' = load_preset path fs).
Proof.
  intros path fs d Hr.
  rewrite (load_preset_parsed path fs d Hr).
  unfold dict_get. repeat split.
  - intros ->. reflexivity.
  - intros v ->. reflexivity.
  - intros d1 d2 k v path' fs' -> Hk Hr'.
    rewrite (load_preset_parsed path' fs' _ Hr').
    unfold dict_get. now rewrite dict_lookup_skip.
Qed.

Lemma load_preset_bands_or_empty_witness :
  read_text hand_written "preset.json" = Ok (Document (JObj version_only)) /\
  load_preset "preset.json" hand_written = Ok (JArr []).
Proof.
  split; [reflexivity|].
  destruct (load_preset_bands_or_empty "preset.json" hand_written version_only eq_refl)
    as [Habsent _].
  apply Habsent. reflexivity.
Defined.

(** ** Frequency detection *)

Lemma hanning_length (M : nat) : length (hanning M) = M.
Proof.
  destruct M as [|[|M]]; [reflexivity | reflexivity |].
  unfold hanning. now rewrite length_map, length_seq.
Qed.

Lemma vmul_length (x y : list R) : length x = length y -> length (vmul x y) = length x.
Proof.
  intro H. unfold vmul. rewrite length_map, length_combine. lia.
Qed.

Lemma nth_map_seq (f : nat -> R) (m i : nat) (d : R) :
  (i < m)%nat -> nth i (map f (seq 0 m)) d = f i.
Proof.
  intro H.
  rewrite (nth_indep _ d (f 0%nat)) by (now rewrite length_map, length_seq).
  rewrite map_nth, seq_nth by assumption. reflexivity.
Qed.

(** [argmax] returns a valid index, and no entry exceeds the one it names. *)
Lemma argmax_from_spec (l : list R) :
  forall (pre : list R) (best_i : nat) (best : R),
    (best_i < length pre)%nat ->
    nth best_i pre 0 = best ->
    Forall (fun m => m <= best) pre ->
    (argmax_from best_i best (length pre) l < length (pre ++ l))%nat /\
    Forall (fun m => m <= nth (argmax_from best_i best (length pre) l) (pre ++ l) 0)
           (pre ++ l).
Proof.
  induction l as [|v l IH]; intros pre best_i best Hi Hn Hall.
  - cbn [argmax_from]. rewrite app_nil_r. split; [assumption|]. now rewrite Hn.
  - cbn [argmax_from].
    replace (pre ++ v :: l) with ((pre ++ [v]) ++ l) by (now rewrite <- app_assoc).
    replace (S (length pre)) with (length (pre ++ [v]))
      by (rewrite length_app; simpl; lia).
    destruct (Rlt_dec best v) as [Hlt|Hge].
    + apply IH.
      * rewrite length_app. simpl. lia.
      * rewrite app_nth2, Nat.sub_diag by lia. reflexivity.
      * apply Forall_app. split.
        -- eapply Forall_impl; [|exact Hall]. intros m Hm. simpl in Hm. lra.
        -- constructor; [lra | constructor].
    + apply IH.
      * rewrite length_app. simpl. lia.
      * rewrite app_nth1 by assumption. exact Hn.
      * apply Forall_app. split; [exact Hall|].
        constructor; [lra | constructor].
Qed.

Lemma argmax_spec (l : list R) :
  l <> [] ->
  (argmax l < length l)%nat /\ Forall (fun m => m <= nth (argmax l) l 0) l.
Proof.
  destruct l as [|v l]; [contradiction|]. intros _.
  apply (argmax_from_spec l [v] 0%nat v).
  - simpl. lia.
  - reflexivity.
  - constructor; [lra | constructor].
Qed.

Lemma magnitude_spectrum_nonempty (x : block) :
  x <> [] ->
  magnitude_spectrum x
  = Ok (map cabs (map (dft_bin (vmul x (hanning (length x))))
                      (seq 0 (length x / 2 + 1)))).
Proof.
  intro Hx. unfold magnitude_spectrum, rfft.
  pose proof (vmul_length x (hanning (length x))) as Hl.
  rewrite hanning_length in Hl. specialize (Hl eq_refl).
  destruct (vmul x (hanning (length x))) as [|w ws] eqn:E.
  - destruct x; [contradiction | discriminate].
  - cbn [bind]. now rewrite Hl.
Qed.

Lemma vmul_zeros (x w : list R) :
  Forall (fun v => v = 0) x -> Forall (fun v => v = 0) (vmul x w).
Proof.
  intro H. revert w. induction H as [|v x Hv _ IH]; intro w.
  - constructor.
  - destruct w as [|c w]; [constructor|].
    unfold vmul. cbn [combine map fst snd]. constructor.
    + subst v. lra.
    + apply IH.
Qed.

Lemma enumerate_from_zeros (x : list R) : forall k : nat,
  Forall (fun v => v = 0) x -> Forall (fun p : nat * R => snd p = 0) (enumerate_from k x).
Proof.
  induction x as [|v x IH]; intros k H; simpl.
  - constructor.
  - inversion H; subst. constructor; [reflexivity | now apply IH].
Qed.

Lemma dft_bin_zeros (x : list R) (k : nat) :
  Forall (fun v => v = 0) x -> cabs (dft_bin x k) = 0.
Proof.
  intro H. unfold cabs, dft_bin, enumerate. cbn [fst snd].
  rewrite !Rsum_zeros.
  - replace (0 * 0 + - 0 * - 0) with 0 by lra. apply sqrt_0.
  - apply Forall_map. eapply Forall_impl; [|apply (enumerate_from_zeros x 0 H)].
    intros p Hp. cbv beta in *. rewrite Hp. lra.
  - apply Forall_map. eapply Forall_impl; [|apply (enumerate_from_zeros x 0 H)].
    intros p Hp. cbv beta in *. rewrite Hp. lra.
Qed.

Lemma nth_zeros (l : list R) (i : nat) : Forall (fun v => v = 0) l -> nth i l 0 = 0.
Proof.
  intro H. revert i. induction H as [|v l Hv _ IH]; intro i; destruct i; simpl; auto.
Qed.


(** A recording of a single sample: one bin, at 0 Hz, of magnitude [|v|]. *)
Lemma magnitude_spectrum_single (v : R) : magnitude_spectrum [v] = Ok [Rabs v].
Proof.
  unfold magnitude_spectrum, rfft, vmul, hanning.
  cbn [length combine map fst snd bind].
  change (1 / 2 + 1)%nat with 1%nat. cbn [seq map].
  unfold dft_bin, enumerate, cabs.
  cbn [length map fst snd enumerate_from Rsum INR].
  do 2 f_equal.
  replace (2 * PI * 0 * 0 / 1) with 0 by lra.
  rewrite cos_0, sin_0.
  replace ((v * 1 * 1 + 0) * (v * 1 * 1 + 0) + - (v * 1 * 0 + 0) * - (v * 1 * 0 + 0))
    with (Rsqr v) by (unfold Rsqr; lra).
  apply sqrt_Rsqr_abs.
Qed.

Lemma dominant_freq_single (v : R) (fs : Z) :
  fs <> 0%Z -> quiet_floor <= Rabs v -> _dominant_freq [v] fs = Ok (Some 0).
Proof.
  intros Hfs Hv. unfold _dominant_freq.
  rewrite magnitude_spectrum_single. cbn [bind].
  destruct (Z.eqb_spec fs 0) as [|_]; [contradiction|]. cbn [bind argmax argmax_from nth].
  destruct (Rlt_dec (Rabs v) quiet_floor) as [Hlt|_]; [lra|].
  do 2 f_equal. unfold rfftfreq. simpl. lra.
Qed.



(** ** The tuner session *)

Section TunerFacts.

Variable strip : string -> string.
Variable float_of_string : string -> option R.
Variable mic : nat -> block.

Lemma read_entry_rejected (default : R) (notice : message) (line : string) :
  strip line <> EmptyString ->
  float_of_string (strip line) = None ->
  read_entry strip float_of_string default notice line = (default, [notice]).
Proof.
  intros Hne H. unfold read_entry. rewrite H.
  destruct (String.eqb_spec (strip line) EmptyString); [contradiction | reflexivity].
Qed.

Lemma read_entry_empty (default : R) (notice : message) (line : string) :
  strip line = EmptyString ->
  read_entry strip float_of_string default notice line = (default, []).
Proof.
  intro H. unfold read_entry. rewrite H. reflexivity.
Qed.

Lemma read_entry_number (default : R) (notice : message) (line : string) (v : R) :
  strip line <> EmptyString ->
  float_of_string (strip line) = Some v ->
  read_entry strip float_of_string default notice line = (v, []).
Proof.
  intros Hne H. unfold read_entry. rewrite H.
  destruct (String.eqb_spec (strip line) EmptyString); [contradiction | reflexivity].
Qed.

(** An accepted sound: four lines are read, a band is appended and the
    loop goes on with the rest of the input. *)
Lemma tuner_loop_accepts (sr : Z) (l_name l_enter l_gain l_q : string)
    (rest : list string) (k : nat) (bands : list json) (freq : R) :
  strip l_name <> EmptyString ->
  _dominant_freq (mic k) sr = Ok (Some freq) ->
  tuner_loop strip float_of_string mic sr
             (l_name :: l_enter :: l_gain :: l_q :: rest) k bands
  = say ([AskName; AskEnter; Recording; RecordingDone;
          Detected freq (strip l_name); AskGain]
         ++ snd (read_entry strip float_of_string 6 InvalidGain l_gain)
         ++ [AskQ]
         ++ snd (read_entry strip float_of_string 4 InvalidQ l_q))
        (tuner_loop strip float_of_string mic sr rest (S k)
           (bands ++ [make_band (strip l_name) freq
                        (fst (read_entry strip float_of_string 6 InvalidGain l_gain))
                        (fst (read_entry strip float_of_string 4 InvalidQ l_q))])).
Proof.
  intros Hname Hfreq. cbn [tuner_loop].
  destruct (String.eqb_spec (strip l_name) EmptyString); [contradiction|].
  rewrite Hfreq.
  destruct (read_entry strip float_of_string 6 InvalidGain l_gain) as [g ng].
  destruct (read_entry strip float_of_string 4 InvalidQ l_q) as [q nq].
  unfold say. cbn [fst snd app]. rewrite <- !app_assoc. reflexivity.
Qed.

(** A sound too quiet to analyse: two lines are read, nothing is
    appended and the loop goes on. *)
Lemma tuner_loop_skips (sr : Z) (l_name l_enter : string)
    (rest : list string) (k : nat) (bands : list json) :
  strip l_name <> EmptyString ->
  _dominant_freq (mic k) sr = Ok None ->
  tuner_loop strip float_of_string mic sr (l_name :: l_enter :: rest) k bands
  = say [AskName; AskEnter; Recording; RecordingDone; NoDominantFreq]
        (tuner_loop strip float_of_string mic sr rest (S k) bands).
Proof.
  intros Hname Hfreq. cbn [tuner_loop].
  destruct (String.eqb_spec (strip l_name) EmptyString); [contradiction|].
  rewrite Hfreq. reflexivity.
Qed.

Lemma tuner_loop_finishes (sr : Z) (l_name : string) (rest : list string)
    (k : nat) (bands : list json) :
  strip l_name = EmptyString ->
  tuner_loop strip float_of_string mic sr (l_name :: rest) k bands
  = ([AskName], Ok bands).
Proof. intro H. cbn [tuner_loop]. rewrite H. reflexivity. Qed.

(** The accumulated list only ever grows at its end. *)
Lemma tuner_loop_appends (sr : Z) (n : nat) :
  forall (lines : list string) (k : nat) (acc bands : list json),
    (length lines <= n)%nat ->
    snd (tuner_loop strip float_of_string mic sr lines k acc) = Ok bands ->
    exists new, bands = acc ++ new.
Proof.
  induction n as [|n IH]; intros lines k acc bands Hlen H.
  - destruct lines; [discriminate | simpl in Hlen; lia].
  - destruct lines as [|l_name rest]; [discriminate|].
    cbn [tuner_loop say snd] in H.
    destruct (String.eqb (strip l_name) EmptyString).
    { injection H as <-. exists []. now rewrite app_nil_r. }
    destruct rest as [|l_enter rest1]; [discriminate|].
    simpl in Hlen. cbn [say snd] in H.
    destruct (_dominant_freq (mic k) sr) as [[freq|]|e]; [| |discriminate].
    + cbn [say snd] in H.
      destruct rest1 as [|l_gain rest2]; [discriminate|].
      destruct (read_entry strip float_of_string 6 InvalidGain l_gain) as [g ng].
      cbn [say snd] in H.
      destruct rest2 as [|l_q rest3]; [discriminate|].
      destruct (read_entry strip float_of_string 4 InvalidQ l_q) as [q nq].
      cbn [say snd] in H. simpl in Hlen.
      apply IH in H; [|lia]. destruct H as [new ->].
      rewrite <- app_assoc. eauto.
    + cbn [say snd] in H. apply IH in H; [|lia]. exact H.
Qed.

Lemma run_tuner_no_bands (path : string) (sr : Z) (lines : list string) (fs : files)
    (out : list message) :
  tuner_loop strip float_of_string mic sr lines 0 [] = (out, Ok []) ->
  run_tuner strip float_of_string mic path sr lines fs
  = (Banner :: out ++ [NoBands], Raise (SystemExit 1), fs).
Proof. intro H. unfold run_tuner. now rewrite H. Qed.

Lemma run_tuner_saves (path : string) (sr : Z) (lines : list string) (fs : files)
    (out : list message) (bands : list json) :
  tuner_loop strip float_of_string mic sr lines 0 [] = (out, Ok bands) ->
  bands <> [] ->
  run_tuner strip float_of_string mic path sr lines fs
  = (Banner :: out ++ [PresetSaved path (length bands)], Ok tt,
     save_preset path bands fs).
Proof.
  intros H Hne. unfold run_tuner. rewrite H.
  destruct bands; [contradiction | reflexivity].
Qed.

End TunerFacts.

Lemma read_after_save (path : string) (bands : list json) (fs : files) :
  read_text (save_preset path bands fs) path
  = Ok (Document (JObj [("version"%string, JNum 1); ("bands"%string, JArr bands)])).
Proof.
  unfold save_preset, write_text. cbn [read_text]. now rewrite String.eqb_refl.
Qed.

(** C9, as amended: in the tuner session, (1) a gain or Q entry that is
    not empty and that [float] rejects yields the default (6.0 for the
    gain, 4.0 for Q) after one notice on the console, while an empty entry
    yields the default with no notice; (2) in both cases the session goes
    on: the band is appended and the loop continues with the next name;
    (3) the accumulated list only grows at its end, so the bands stay in
    the order they were accepted; (4) a session that ends with no band
    says so, exits with code 1 and leaves the files as they were; (5) a
    session that ends with at least one band passes the accumulated list
    to [save_preset], which writes it under ["bands"]. *)
Theorem tuner_session_defaults_and_outcome :
  forall (strip : string -> string) (float_of_string : string -> option R)
         (mic : nat -> block) (sr : Z),
    (forall default notice line,
        (strip line <> EmptyString -> float_of_string (strip line) = None ->
         read_entry strip float_of_string default notice line = (default, [notice])) /\
        (strip line = EmptyString ->
         read_entry strip float_of_string default notice line = (default, []))) /\
    (forall l_name l_enter l_gain l_q rest k bands freq,
        strip l_name <> EmptyString ->
        _dominant_freq (mic k) sr = Ok (Some freq) ->
        strip l_gain <> EmptyString -> float_of_string (strip l_gain) = None ->
        strip l_q <> EmptyString -> float_of_string (strip l_q) = None ->
        tuner_loop strip float_of_string mic sr
                   (l_name :: l_enter :: l_gain :: l_q :: rest) k bands
        = say [AskName; AskEnter; Recording; RecordingDone;
               Detected freq (strip l_name); AskGain; InvalidGain; AskQ; InvalidQ]
              (tuner_loop strip float_of_string mic sr rest (S k)
                 (bands ++ [make_band (strip l_name) freq 6 4]))) /\
    (forall lines k acc bands,
        snd (tuner_loop strip float_of_string mic sr lines k acc) = Ok bands ->
        exists new, bands = acc ++ new) /\
    (forall path lines fs out,
        tuner_loop strip float_of_string mic sr lines 0 [] = (out, Ok []) ->
        run_tuner strip float_of_string mic path sr lines fs
        = (Banner :: out ++ [NoBands], Raise (SystemExit 1), fs)) /\
    (forall path lines fs out bands,
        tuner_loop strip float_of_string mic sr lines 0 [] = (out, Ok bands) ->
        bands <> [] ->
        run_tuner strip float_of_string mic path sr lines fs
        = (Banner :: out ++ [PresetSaved path (length bands)], Ok tt,
           save_preset path bands fs) /\
        load_preset path (save_preset path bands fs) = Ok (JArr bands)).
Proof.
  intros strip float_of_string mic sr.
  split.
  { intros default notice line. split.
    - apply read_entry_rejected.
    - apply read_entry_empty. }
  split.
  { intros l_name l_enter l_gain l_q rest k bands freq Hname Hfreq Hg Hg' Hq Hq'.
    rewrite (tuner_loop_accepts strip float_of_string mic sr l_name l_enter l_gain l_q
               rest k bands freq Hname Hfreq).
    now rewrite !read_entry_rejected. }
  split.
  { intros lines k acc bands H.
    exact (tuner_loop_appends strip float_of_string mic sr (length lines)
             lines k acc bands (Nat.le_refl _) H). }
  split; [intros path lines fs out H; now apply run_tuner_no_bands|].
  intros path lines fs out bands H Hne. split.
  - now apply run_tuner_saves.
  - unfold load_preset. rewrite read_after_save. reflexivity.
Qed.

Lemma typed_session_bands :
  tuner_loop ascii_strip integer_float unit_mic 44100 typed_session 0 []
  = ([AskName; AskEnter; Recording; RecordingDone; Detected 0 "hiss";
      AskGain; InvalidGain; AskQ; InvalidQ; AskName],
     Ok [make_band "hiss" 0 6 4]).
Proof.
  unfold typed_session.
  rewrite (tuner_loop_accepts ascii_strip integer_float unit_mic 44100
             "hiss" EmptyString "loud" "narrow" [EmptyString] 0 [] 0).
  - rewrite !read_entry_rejected by (reflexivity || discriminate).
    rewrite tuner_loop_finishes by reflexivity. reflexivity.
  - discriminate.
  - apply dominant_freq_single; [lia|].
    unfold quiet_floor. rewrite Rabs_R1. lra.
Qed.

(** C9 fails on the code: in the session [typed_session] the gain entry
    [loud] and the Q entry [narrow] are rejected by [float]; the defaults
    are taken, the band is saved, and the console shows the two notices
    [InvalidGain] ('Invalid gain - using 6 dB.') and [InvalidQ]
    ('Invalid Q - using 4.0.'). *)
Lemma rejected_entries_are_announced :
  integer_float (ascii_strip "loud") = None /\
  integer_float (ascii_strip "narrow") = None /\
  run_tuner ascii_strip integer_float unit_mic "preset.json" 44100 typed_session []
  = ([Banner; AskName; AskEnter; Recording; RecordingDone; Detected 0 "hiss";
      AskGain; InvalidGain; AskQ; InvalidQ; AskName; PresetSaved "preset.json" 1],
     Ok tt, save_preset "preset.json" [make_band "hiss" 0 6 4] []) /\
  In InvalidGain
     (fst (fst (run_tuner ascii_strip integer_float unit_mic "preset.json" 44100
                          typed_session []))) /\
  In InvalidQ
     (fst (fst (run_tuner ascii_strip integer_float unit_mic "preset.json" 44100
                          typed_session []))).
Proof.
  assert (Hrun : run_tuner ascii_strip integer_float unit_mic "preset.json" 44100
                           typed_session []
                 = ([Banner; AskName; AskEnter; Recording; RecordingDone;
                     Detected 0 "hiss"; AskGain; InvalidGain; AskQ; InvalidQ;
                     AskName; PresetSaved "preset.json" 1],
                    Ok tt, save_preset "preset.json" [make_band "hiss" 0 6 4] [])).
  { rewrite (run_tuner_saves ascii_strip integer_float unit_mic "preset.json" 44100
               typed_session [] _ _ typed_session_bands) by discriminate.
    reflexivity. }
  split; [reflexivity|]. split; [reflexivity|]. split; [exact Hrun|].
  rewrite Hrun. cbn [fst]. split.
  - do 7 right. left. reflexivity.
  - do 9 right. left. reflexivity.
Qed.

Lemma tuner_session_defaults_and_outcome_witness :
  ascii_strip "loud" <> EmptyString /\
  integer_float (ascii_strip "loud") = None /\
  read_entry ascii_strip integer_float 6 InvalidGain "loud" = (6, [InvalidGain]) /\
  run_tuner ascii_strip integer_float unit_mic "preset.json" 44100 typed_session []
  = ([Banner; AskName; AskEnter; Recording; RecordingDone; Detected 0 "hiss";
      AskGain; InvalidGain; AskQ; InvalidQ; AskName; PresetSaved "preset.json" 1],
     Ok tt, save_preset "preset.json" [make_band "hiss" 0 6 4] []) /\
  load_preset "preset.json" (save_preset "preset.json" [make_band "hiss" 0 6 4] [])
  = Ok (JArr [make_band "hiss" 0 6 4]).
Proof.
  destruct (tuner_session_defaults_and_outcome ascii_strip integer_float unit_mic 44100)
    as [Hentry [_ [_ [_ Hsave]]]].
  assert (Hne : ascii_strip "loud" <> EmptyString) by discriminate.
  split; [exact Hne|].
  split; [reflexivity|].
  split; [apply (proj1 (Hentry 6 InvalidGain "loud"%string)); [exact Hne | reflexivity]|].
  apply (Hsave "preset.json"%string typed_session [] _ _ typed_session_bands).
  discriminate.
Defined.

(** ** Well-formed engines *)

Lemma series_fits (secs : list sos) :
  forall (zs : list sos_state) (x : block),
    Forall2 fits secs zs ->
    Forall2 fits secs (snd (series secs zs x)) /\
    length (fst (series secs zs x)) = length x.
Proof.
  induction secs as [|s secs IH]; intros zs x H.
  - inversion H; subst. simpl. auto.
  - inversion H as [|? z ? zs' Hf Hr]; subst. cbn [series].
    pose proof (fits_after_run s x z Hf) as Hf'.
    pose proof (sosfilt_run_lengths s x z (proj2 Hf)) as [Hl _].
    destruct (sosfilt_run s x z) as [y z']. cbn [fst snd] in *.
    destruct (IH zs' y Hr) as [Hfit Hlen].
    destruct (series secs zs' y) as [out zs'']. cbn [fst snd] in *.
    split; [constructor; assumption | congruence].
Qed.

Lemma Forall2_split_at {A B : Type} (P : A -> B -> Prop) (l : list A) (l' : list B) :
  Forall2 P l l' ->
  forall i, (i < length l)%nat ->
    exists pre a post pre' a' post',
      l = pre ++ a :: post /\ l' = pre' ++ a' :: post' /\ length pre = i /\
      Forall2 P pre pre' /\ P a a' /\ Forall2 P post post'.
Proof.
  induction 1 as [|a a' l l' Ha Hl IH]; intros i Hi.
  - simpl in Hi. lia.
  - destruct i as [|i].
    + exists [], a, l, [], a', l'. repeat split; auto.
    + simpl in Hi. destruct (IH i) as [pre [b [post [pre' [b' [post' H]]]]]]; [lia|].
      destruct H as [-> [-> [Hlen [Hpre [Hb Hpost]]]]].
      exists (a :: pre), b, post, (a' :: pre'), b', post'.
      repeat split; auto. simpl. now rewrite Hlen.
Qed.

(** On a well-formed engine the cascade raises nothing, returns as many
    samples as it was given and leaves states that fit the chain. *)
Lemma cascade_total (self : AudioProcessor) (indata : block) :
  well_formed self ->
  exists x zs,
    cascade self indata = Ok (x, zs) /\
    Forall2 fits (sos_chain self) zs /\
    length x = length indata.
Proof.
  intros [Hfit Hidx].
  destruct (Forall2_split_at fits _ _ Hfit (bass_idx self) Hidx)
    as [pre [bass [post [zpre [zb [zpost [Hc [Hz [Hlen [Hpre [Hb Hpost]]]]]]]]]]].
  pose proof (cascade_unfold self pre bass post zpre zb zpost indata
                Hc Hz Hlen Hpre Hb Hpost) as H.
  destruct (series_fits pre zpre indata Hpre) as [Hpre' Hl1].
  destruct (series pre zpre indata) as [x1 zpre']. cbn [fst snd] in *.
  pose proof (fits_after_run bass x1 zb Hb) as Hb1.
  pose proof (sosfilt_run_lengths bass x1 zb (proj2 Hb)) as [Hl2 _].
  destruct (sosfilt_run bass x1 zb) as [low z_tap]. cbn [fst snd] in *.
  pose proof (fits_after_run bass x1 z_tap Hb1) as Hb2.
  pose proof (sosfilt_run_lengths bass x1 z_tap (proj2 Hb1)) as [Hl3 _].
  destruct (sosfilt_run bass x1 z_tap) as [x2 z_series]. cbn [fst snd] in *.
  destruct (series_fits post zpost (vadd x2 (vscale low 2)) Hpost) as [Hpost' Hl4].
  destruct (series post zpost (vadd x2 (vscale low 2))) as [x3 zpost'].
  cbn [fst snd] in *.
  exists x3, (zpre' ++ z_series :: zpost'). split; [exact H|]. split.
  - rewrite Hc. apply Forall2_app; [assumption|]. constructor; assumption.
  - rewrite Hl4, vadd_length by (rewrite vscale_length; congruence). congruence.
Qed.

Lemma noise_gate_length (x : block) : length (noise_gate x) = length x.
Proof.
  unfold noise_gate. destruct (Rlt_dec (rms x) gate_threshold); [|reflexivity].
  apply vscale_length.
Qed.

(** [_process] keeps an engine well formed: it can be called on block after
    block, and each call returns a block of the length it was given. *)
Lemma process_total (self : AudioProcessor) (indata : block) :
  well_formed self ->
  exists out self',
    _process self indata = Ok (out, self') /\
    well_formed self' /\
    sos_chain self' = sos_chain self /\
    bass_idx self' = bass_idx self /\
    length out = length indata.
Proof.
  intro Hwf. pose proof Hwf as [_ Hidx].
  destruct (cascade_total self indata Hwf) as [x [zs [Hc [Hfit Hlen]]]].
  exists (noise_gate x), (set_zi self zs).
  unfold _process. rewrite Hc. cbn [bind].
  repeat split; auto.
  now rewrite noise_gate_length.
Qed.

(** *** The gate is decided block by block *)

Lemma rms_single (v : R) : rms [v] = Rabs v.
Proof.
  unfold rms, mean. cbn [map Rsum length INR].
  replace ((v ^ 2 + 0) / 1) with (Rsqr v) by (unfold Rsqr; simpl; field).
  apply sqrt_Rsqr_abs.
Qed.

(** The bench engine zeroes the quiet block [[1/1000]] when it comes alone
    and lets the same sample through when it opens the block
    [[1/1000; 1]]; there its output, 0.251625, already carries the second
    sample, because the series pass starts from the state the tap left at
    the end of the block. *)
Lemma gate_is_decided_per_block :
  (exists s, _process bench_engine [1 / 1000] = Ok ([0], s)) /\
  (exists s, _process bench_engine [1 / 1000; 1]
             = Ok ([2013 / 8000; 26013 / 16000], s)).
Proof.
  split.
  - eexists. unfold _process, bench_engine. rewrite bench_cascade_one. cbn [bind].
    unfold noise_gate.
    destruct (Rlt_dec _ gate_threshold) as [_|Hn].
    + rewrite vscale_zero. reflexivity.
    + exfalso. apply Hn. rewrite rms_single.
      pose proof gate_threshold_bounds.
      rewrite Rabs_right; lra.
  - eexists. unfold _process.
    assert (Hc : cascade bench_engine [1 / 1000; 1]
                 = Ok ([2013 / 8000; 26013 / 16000], bench_states (2001 / 6400)))
      by (unfold bench_engine; bench_cascade 0 [1 / 1000; 1]).
    rewrite Hc. cbn [bind].
    rewrite loud_block_passes by (unfold mean; simpl; lra).
    reflexivity.
Qed.

(** ** Chain design *)

Lemma peaking_rows_cookbook (f0 gain_db Q : R) (fs : Z) :
  fs <> 0%Z ->
  peaking_rows f0 gain_db Q fs = Ok [cookbook_peaking f0 gain_db Q (IZR fs)].
Proof.
  intro H. unfold peaking_rows, div_by_fs.
  destruct (Z.eqb_spec fs 0) as [|_]; [contradiction|]. reflexivity.
Qed.

Lemma peaking_rows_zero_rate (f0 gain_db Q : R) :
  peaking_rows f0 gain_db Q 0 = Raise ZeroDivisionError.
Proof. reflexivity. Qed.

Section DesignFacts.

Variable lib : SignalLib.
Variable float_of_string : string -> option R.

Lemma band_params_inv (band : json) (f0 gain Q : R) :
  band_params float_of_string band = Ok (f0, gain, Q) ->
  exists d v,
    band = JObj d /\
    dict_lookup "freq" d = Some v /\
    py_float float_of_string v = Ok f0 /\
    py_float float_of_string (dict_get "gain_db" (JNum 6) d) = Ok gain /\
    py_float float_of_string (dict_get "Q" (JNum 4) d) = Ok Q.
Proof.
  unfold band_params, subscript, get_method.
  destruct band as [| | | | |d]; try discriminate.
  destruct (dict_lookup "freq" d) as [v|] eqn:Ev; [|discriminate]. cbn [bind].
  destruct (py_float float_of_string v) as [f|] eqn:Ef; [|discriminate]. cbn [bind].
  destruct (py_float float_of_string (dict_get "gain_db" (JNum 6) d)) as [g|] eqn:Eg;
    [|discriminate]. cbn [bind].
  destruct (py_float float_of_string (dict_get "Q" (JNum 4) d)) as [q|] eqn:Eq;
    [|discriminate]. cbn [bind].
  intro H. injection H as <- <- <-. exists d, v. auto.
Qed.

(** The loop body is [band_params] followed by [_peaking_sos]. *)
Lemma extra_band_loop_step (fs : Z) (band : json) (rest : list json) (acc : list sos) :
  extra_band_loop float_of_string fs (band :: rest) acc
  = ('(f0, gain, Q) <- band_params float_of_string band ;;
     s <- _peaking_sos f0 gain Q fs ;;
     extra_band_loop float_of_string fs rest (acc ++ [s])).
Proof.
  cbn [extra_band_loop]. unfold band_params.
  destruct (subscript band "freq") as [v|]; [|reflexivity]. cbn [bind].
  destruct (py_float float_of_string v) as [f|]; [|reflexivity]. cbn [bind].
  destruct (get_method band "gain_db" (JNum 6)) as [g|]; [|reflexivity]. cbn [bind].
  destruct (py_float float_of_string g) as [gain|]; [|reflexivity]. cbn [bind].
  destruct (get_method band "Q" (JNum 4)) as [q|]; [|reflexivity]. cbn [bind].
  destruct (py_float float_of_string q) as [Q|]; reflexivity.
Qed.

Lemma extra_band_loop_inv (fs : Z) (bands : list json) :
  forall acc chain : list sos,
    extra_band_loop float_of_string fs bands acc = Ok chain ->
    exists extra,
      chain = acc ++ extra /\
      Forall2 (section_of_band float_of_string fs) bands extra.
Proof.
  induction bands as [|band rest IH]; intros acc chain H.
  - injection H as <-. exists []. split; [now rewrite app_nil_r | constructor].
  - rewrite extra_band_loop_step in H.
    destruct (band_params float_of_string band) as [[[f0 gain] Q]|] eqn:Ep;
      [|discriminate]. cbn [bind] in H.
    destruct (_peaking_sos f0 gain Q fs) as [s|] eqn:Es; [|discriminate].
    cbn [bind] in H.
    destruct (IH _ _ H) as [extra [-> Hall]].
    exists (s :: extra). split; [now rewrite <- app_assoc|].
    constructor; [|exact Hall]. exists f0, gain, Q. auto.
Qed.

Lemma extra_band_loop_succeeds (fs : Z) (bands : list json) :
  fs <> 0%Z ->
  Forall (fun band => is_ok (band_params float_of_string band)) bands ->
  forall acc, is_ok (extra_band_loop float_of_string fs bands acc).
Proof.
  intros Hfs Hall. induction Hall as [|band rest [[[f0 gain] Q] Hp] _ IH]; intro acc.
  - now exists acc.
  - rewrite extra_band_loop_step, Hp. cbn [bind].
    unfold _peaking_sos. rewrite peaking_rows_cookbook by assumption.
    cbn [bind]. apply IH.
Qed.

(** What a successful design is made of. *)
Lemma design_eq_inv (fs : Z) (extra_bands : option (list json)) (chain : list sos) :
  design_eq lib float_of_string fs extra_bands = Ok chain ->
  exists hp b a bass lp extra,
    butter lib 2 80 High fs = Ok hp /\
    iirnotch lib 60 30 fs = Ok (b, a) /\
    butter lib 2 120 Low fs = Ok bass /\
    butter lib 4 9000 Low fs = Ok lp /\
    fs <> 0%Z /\
    chain = [hp; sos_of_ba b a; bass; [cookbook_peaking 3000 3 1 (IZR fs)]; lp]
            ++ extra /\
    Forall2 (section_of_band float_of_string fs) (given_bands extra_bands) extra.
Proof.
  unfold design_eq.
  destruct (butter lib 2 80 High fs) as [hp|]; [|discriminate]. cbn [bind].
  destruct (iirnotch lib 60 30 fs) as [[b a]|]; [|discriminate]. cbn [bind].
  destruct (butter lib 2 120 Low fs) as [bass|]; [|discriminate]. cbn [bind].
  destruct (Z.eq_dec fs 0) as [->|Hfs]; [discriminate|].
  rewrite peaking_rows_cookbook by assumption. cbn [bind].
  destruct (butter lib 4 9000 Low fs) as [lp|]; [|discriminate]. cbn [bind app].
  intro H. exists hp, b, a, bass, lp.
  destruct extra_bands as [[|band rest]|].
  - injection H as <-. exists []. repeat split; auto using Forall2_nil.
  - apply extra_band_loop_inv in H. destruct H as [extra [-> Hall]].
    exists extra. repeat split; auto.
  - injection H as <-. exists []. repeat split; auto using Forall2_nil.
Qed.

Lemma map_result_ok {A B : Type} (f : A -> result B) (l : list A) :
  (forall a, is_ok (f a)) -> is_ok (map_result f l).
Proof.
  intro Hf. induction l as [|a l [bs IH]]; cbn [map_result].
  - now exists [].
  - destruct (Hf a) as [b ->]. cbn [bind]. rewrite IH. cbn [bind]. now exists (b :: bs).
Qed.

Lemma init_inv (fs frame : Z) (extra_bands : option (list json)) (eng : AudioProcessor) :
  AudioProcessor_init lib float_of_string fs frame extra_bands = Ok eng ->
  bass_idx eng = 2%nat /\
  design_eq lib float_of_string fs extra_bands = Ok (sos_chain eng).
Proof.
  unfold AudioProcessor_init.
  destruct (design_eq lib float_of_string fs extra_bands) as [chain|]; [|discriminate].
  cbn [bind].
  destruct (map_result (sosfilt_zi lib) chain) as [zs|]; [|discriminate].
  cbn [bind]. intro H. injection H as <-. auto.
Qed.


Lemma design_eq_succeeds (fs : Z) (extra_bands : option (list json)) :
  range_checked lib ->
  (18000 < fs)%Z ->
  Forall (fun band => is_ok (band_params float_of_string band))
         (given_bands extra_bands) ->
  is_ok (design_eq lib float_of_string fs extra_bands).
Proof.
  intros [Hok [_ [Hnotch _]]] Hfs Hbands. unfold design_eq.
  apply IZR_lt in Hfs.
  destruct (Hok 2%nat 80 High fs) as [hp ->]; [lra|]. cbn [bind].
  destruct (Hnotch 60 30 fs) as [[b a] ->]; [lra|]. cbn [bind].
  destruct (Hok 2%nat 120 Low fs) as [bass ->]; [lra|]. cbn [bind].
  assert (Hnz : fs <> 0%Z) by (intros ->; lra).
  rewrite peaking_rows_cookbook by assumption. cbn [bind].
  destruct (Hok 4%nat 9000 Low fs) as [lp ->]; [lra|]. cbn [bind].
  destruct extra_bands as [[|band rest]|]; try (eexists; reflexivity).
  now apply extra_band_loop_succeeds.
Qed.

End DesignFacts.

(** C3: a chain that [design_eq] returns has 5 entries plus one per extra
    band; its first five entries are, in this order, the 80 Hz high-pass,
    the 60 Hz notch, the 120 Hz low-pass, the 3000 Hz peaking section and
    the 9000 Hz low-pass, and the entries after them are the peaking
    sections of the extra bands, in the order of the bands; an engine built
    on the chain has [bass_idx = 2], the position of the 120 Hz low-pass. *)
Theorem design_eq_chain_layout :
  forall (lib : SignalLib) (float_of_string : string -> option R)
         (fs : Z) (extra_bands : option (list json)) (chain : list sos),
    design_eq lib float_of_string fs extra_bands = Ok chain ->
    length chain = (5 + length (given_bands extra_bands))%nat /\
    (exists hp b a bass lp,
        butter lib 2 80 High fs = Ok hp /\
        iirnotch lib 60 30 fs = Ok (b, a) /\
        butter lib 2 120 Low fs = Ok bass /\
        butter lib 4 9000 Low fs = Ok lp /\
        firstn 5 chain
        = [hp; sos_of_ba b a; bass; [cookbook_peaking 3000 3 1 (IZR fs)]; lp] /\
        nth_error chain 2 = Some bass) /\
    Forall2 (section_of_band float_of_string fs)
            (given_bands extra_bands) (skipn 5 chain) /\
    (forall frame eng,
        AudioProcessor_init lib float_of_string fs frame extra_bands = Ok eng ->
        bass_idx eng = 2%nat /\ sos_chain eng = chain).
Proof.
  intros lib fos fs extra_bands chain H.
  destruct (design_eq_inv lib fos fs extra_bands chain H)
    as [hp [b [a [bass [lp [extra [Hhp [Hn [Hb [Hlp [_ [-> Hall]]]]]]]]]]]].
  split; [|split; [|split]].
  - rewrite length_app, (Forall2_length Hall). reflexivity.
  - exists hp, b, a, bass, lp. repeat split; auto.
  - exact Hall.
  - intros frame eng Hi. destruct (init_inv lib fos fs frame extra_bands eng Hi) as [Hidx Hd].
    split; [exact Hidx|]. rewrite H in Hd. now injection Hd.
Qed.

(** C7: in a chain that [design_eq] returns, the entry of the [i]-th extra
    band, at index [5 + i], is the cookbook peaking section at the band's
    ["freq"], at its ["gain_db"] or 6.0 when the key is absent, and at its
    ["Q"] or 4.0 when the key is absent; [load_preset] hands the stored
    bands over as they are, so the defaults come from [design_eq]. *)
Theorem extra_band_is_cookbook_peaking :
  (forall (lib : SignalLib) (float_of_string : string -> option R)
          (fs : Z) (extra_bands : option (list json)) (chain : list sos)
          (i : nat) (band : json),
      design_eq lib float_of_string fs extra_bands = Ok chain ->
      nth_error (given_bands extra_bands) i = Some band ->
      exists d v f0 gain Q,
        band = JObj d /\
        dict_lookup "freq" d = Some v /\
        py_float float_of_string v = Ok f0 /\
        py_float float_of_string (dict_get "gain_db" (JNum 6) d) = Ok gain /\
        py_float float_of_string (dict_get "Q" (JNum 4) d) = Ok Q /\
        (dict_lookup "gain_db" d = None -> gain = 6) /\
        (dict_lookup "Q" d = None -> Q = 4) /\
        _peaking_sos f0 gain Q fs = Ok [cookbook_peaking f0 gain Q (IZR fs)] /\
        nth_error chain (5 + i) = Some [cookbook_peaking f0 gain Q (IZR fs)]) /\
  (forall (path : string) (fs : files) (d : list (string * json)) (bands : json),
      read_text fs path = Ok (Document (JObj d)) ->
      dict_lookup "bands" d = Some bands ->
      load_preset path fs = Ok bands).
Proof.
  split.
  - intros lib fos fs extra_bands chain i band H Hi.
    destruct (design_eq_inv lib fos fs extra_bands chain H)
      as [hp [b [a [bass [lp [extra [_ [_ [_ [_ [Hfs [-> Hall]]]]]]]]]]]].
    assert (Hsec : exists s, nth_error extra i = Some s /\ section_of_band fos fs band s).
    { clear H. revert i Hi. induction Hall as [|b0 s0 bs ss Hs _ IH]; intros i Hi.
      - destruct i; discriminate.
      - destruct i as [|i]; simpl in Hi.
        + injection Hi as <-. exists s0. auto.
        + apply IH in Hi. exact Hi. }
    destruct Hsec as [s [Hnth [f0 [gain [Q [Hp Hs]]]]]].
    destruct (band_params_inv fos band f0 gain Q Hp) as [d [v [-> [Hv [Hf [Hg HQ]]]]]].
    assert (Hcook : _peaking_sos f0 gain Q fs = Ok [cookbook_peaking f0 gain Q (IZR fs)])
      by (now apply peaking_rows_cookbook).
    rewrite Hcook in Hs. injection Hs as <-.
    exists d, v, f0, gain, Q.
    split; [reflexivity|]. split; [exact Hv|]. split; [exact Hf|].
    split; [exact Hg|]. split; [exact HQ|].
    split; [|split; [|split; [exact Hcook|]]].
    + intro Habs. unfold dict_get in Hg. rewrite Habs in Hg. now injection Hg.
    + intro Habs. unfold dict_get in HQ. rewrite Habs in HQ. now injection HQ.
    + rewrite nth_error_app2 by (simpl; lia).
      cbn [length]. replace (5 + i - 5)%nat with i by lia. exact Hnth.
  - intros path fs d bands Hr Hb.
    rewrite (load_preset_parsed path fs d Hr). unfold dict_get. now rewrite Hb.
Qed.


(** *** The textbook designers *)

Lemma textbook_range_checked : range_checked textbook_lib.
Proof.
  unfold range_checked, textbook_lib. cbn [butter iirnotch sosfilt_zi].
  split; [|split; [|split]].
  - intros N Wn bt fs [H0 H1]. unfold textbook_butter.
    destruct (Rlt_dec 0 Wn); [|contradiction].
    destruct (Rlt_dec Wn (IZR fs / 2)); [|contradiction].
    eexists. reflexivity.
  - intros N Wn bt fs H. unfold textbook_butter.
    destruct (Rlt_dec 0 Wn); [|reflexivity].
    destruct (Rlt_dec Wn (IZR fs / 2)); [|reflexivity].
    exfalso. apply H. split; assumption.
  - intros w0 Q fs [H0 H1]. unfold textbook_iirnotch.
    assert (Hpos : 0 < IZR fs) by lra.
    destruct (Z.eqb_spec fs 0) as [->|_]; [lra|].
    assert (Hq : 2 * w0 / IZR fs * IZR fs = 2 * w0) by (field; lra).
    destruct (Rlt_dec 1 (2 * w0 / IZR fs)) as [Hgt|_]; [exfalso; nra|].
    destruct (Rlt_dec (2 * w0 / IZR fs) 0) as [Hlt|_]; [exfalso; nra|].
    eexists. reflexivity.
  - intro s. eexists. reflexivity.
Qed.

Lemma band_above_nyquist_converts :
  band_params integer_float band_above_nyquist = Ok (30000, 6, 4).
Proof. reflexivity. Qed.

Lemma band_below_zero_converts :
  band_params integer_float band_below_zero = Ok (-5, 3, 2).
Proof. reflexivity. Qed.


Lemma design_at_44100 :
  exists chain,
    design_eq textbook_lib integer_float 44100 (Some [band_above_nyquist]) = Ok chain.
Proof.
  apply (design_eq_succeeds textbook_lib integer_float 44100
           (Some [band_above_nyquist]) textbook_range_checked).
  - lia.
  - repeat constructor. eexists. exact band_above_nyquist_converts.
Qed.

Lemma design_eq_chain_layout_witness :
  exists chain,
    design_eq textbook_lib integer_float 44100 (Some [band_above_nyquist]) = Ok chain /\
    length chain = 6%nat /\
    nth_error chain 2 = Some (map (fun k => bilinear_biquad Low (tan (PI * 120 / 44100))
                                     (1 / (2 * cos (PI * (2 * INR k + 1) / (2 * INR 2)))))
                                  [0%nat]).
Proof.
  destruct design_at_44100 as [chain Hc].
  exists chain. split; [exact Hc|].
  destruct (design_eq_chain_layout textbook_lib integer_float 44100
              (Some [band_above_nyquist]) chain Hc)
    as [Hlen [[hp [b [a [bass [lp [_ [_ [Hbass [_ [_ Hnth]]]]]]]]]] _]].
  split; [exact Hlen|].
  rewrite Hnth. f_equal.
  cbn [textbook_lib butter] in Hbass. unfold textbook_butter in Hbass.
  destruct (Rlt_dec 0 120) as [_|Hn]; [|exfalso; lra].
  destruct (Rlt_dec 120 (44100 / 2)) as [_|Hn]; [|exfalso; lra].
  now injection Hbass.
Defined.

Lemma extra_band_is_cookbook_peaking_witness :
  exists chain,
    design_eq textbook_lib integer_float 44100 (Some [band_above_nyquist]) = Ok chain /\
    nth_error (given_bands (Some [band_above_nyquist])) 0 = Some band_above_nyquist /\
    nth_error chain 5 = Some [cookbook_peaking 30000 6 4 44100].
Proof.
  destruct design_at_44100 as [chain Hc].
  exists chain. split; [exact Hc|]. split; [reflexivity|].
  destruct extra_band_is_cookbook_peaking as [Hband _].
  destruct (Hband textbook_lib integer_float 44100%Z (Some [band_above_nyquist]) chain
              0%nat band_above_nyquist Hc eq_refl)
    as [d [v [f0 [gain [Q [Hd [Hv [Hf [_ [_ [Hg [HQ [_ Hnth]]]]]]]]]]]]].
  unfold band_above_nyquist in Hd. injection Hd as <-.
  cbn in Hv. injection Hv as <-.
  cbn in Hf. injection Hf as <-.
  rewrite (Hg eq_refl), (HQ eq_refl) in Hnth.
  exact Hnth.
Defined.


(** *** The engine [__init__] builds *)

Lemma map_result_length {A B : Type} (f : A -> result B) (P : A -> B -> Prop) :
  (forall a b, f a = Ok b -> P a b) ->
  forall (l : list A) (bs : list B), map_result f l = Ok bs -> Forall2 P l bs.
Proof.
  intros Hf. induction l as [|a l IH]; intros bs H; cbn [map_result] in H.
  - injection H as <-. constructor.
  - destruct (f a) as [b|] eqn:Eb; [|discriminate]. cbn [bind] in H.
    destruct (map_result f l) as [bs'|]; [|discriminate]. cbn [bind] in H.
    injection H as <-. constructor; auto.
Qed.

Lemma section_of_band_normalised (float_of_string : string -> option R)
    (fs : Z) (band : json) (s : sos) :
  fs <> 0%Z ->
  section_of_band float_of_string fs band s -> forallb a0_is_one s = true.
Proof.
  intros Hfs [f0 [gain [Q [_ Hs]]]].
  unfold _peaking_sos in Hs. rewrite peaking_rows_cookbook in Hs by assumption.
  injection Hs as <-. cbn [forallb]. now rewrite a0_is_one_true.
Qed.

(** With designers that return normalised sections, the engine [__init__]
    builds is well formed. *)
Lemma init_well_formed (lib : SignalLib) (float_of_string : string -> option R)
    (fs frame : Z) (extra_bands : option (list json)) (eng : AudioProcessor) :
  normalised lib ->
  AudioProcessor_init lib float_of_string fs frame extra_bands = Ok eng ->
  well_formed eng.
Proof.
  intros [Hbut [Hnotch Hzi]] H. unfold AudioProcessor_init in H.
  destruct (design_eq lib float_of_string fs extra_bands) as [chain|] eqn:Hd;
    [|discriminate]. cbn [bind] in H.
  destruct (map_result (sosfilt_zi lib) chain) as [zs|] eqn:Hz; [|discriminate].
  cbn [bind] in H. injection H as <-.
  unfold well_formed. cbn [sos_chain zi bass_idx].
  destruct (design_eq_inv lib float_of_string fs extra_bands chain Hd)
    as [hp [b [a [bass [lp [extra [Hhp [Hn [Hb [Hlp [Hfs [-> Hall]]]]]]]]]]]].
  split; [|rewrite length_app; simpl; lia].
  assert (Hnorm : Forall (fun s => forallb a0_is_one s = true)
                    ([hp; sos_of_ba b a; bass; [cookbook_peaking 3000 3 1 (IZR fs)]; lp]
                     ++ extra)).
  { apply Forall_app. split.
    - repeat constructor.
      + exact (Hbut _ _ _ _ _ Hhp).
      + specialize (Hnotch _ _ _ _ _ Hn).
        destruct b as [[bb0 bb1] bb2], a as [[aa0 aa1] aa2]. cbn in *.
        now rewrite a0_is_one_true.
      + exact (Hbut _ _ _ _ _ Hb).
      + cbn. now rewrite a0_is_one_true.
      + exact (Hbut _ _ _ _ _ Hlp).
    - clear Hd Hz. induction Hall as [|band s bands ss Hs _ IH]; constructor; auto.
      exact (section_of_band_normalised float_of_string fs band s Hfs Hs). }
  pose proof (map_result_length (sosfilt_zi lib) (fun s z => length z = length s)
                Hzi _ _ Hz) as Hlen.
  clear Hz Hd. revert Hnorm Hlen. generalize ([hp; sos_of_ba b a; bass;
                                   [cookbook_peaking 3000 3 1 (IZR fs)]; lp] ++ extra).
  intros l Hnorm Hlen. induction Hlen as [|s z l zs' Hs _ IH]; constructor.
  - inversion Hnorm; subst. split; assumption.
  - inversion Hnorm; subst. auto.
Qed.

Lemma bilinear_biquad_normalised (bt : btype) (K Qf : R) :
  a0 (bilinear_biquad bt K Qf) = 1.
Proof. destruct bt; reflexivity. Qed.

Lemma steady_state_length (s : sos) : forall scale, length (steady_state scale s) = length s.
Proof. induction s as [|q s IH]; intro scale; simpl; [reflexivity | now rewrite IH]. Qed.

Lemma textbook_normalised : normalised textbook_lib.
Proof.
  unfold normalised, textbook_lib. cbn [butter iirnotch sosfilt_zi].
  split; [|split].
  - intros N Wn bt fs s H. unfold textbook_butter in H.
    destruct (Rlt_dec 0 Wn); [|discriminate].
    destruct (Rlt_dec Wn (IZR fs / 2)); [|discriminate].
    injection H as <-. rewrite forallb_forall. intros q Hq.
    apply in_map_iff in Hq. destruct Hq as [k [<- _]].
    apply a0_is_one_true, bilinear_biquad_normalised.
  - intros w0 Q fs b a H. unfold textbook_iirnotch in H.
    destruct (Z.eqb fs 0); [discriminate|].
    destruct (Rlt_dec 1 (2 * w0 / IZR fs)); [discriminate|].
    destruct (Rlt_dec (2 * w0 / IZR fs) 0); [discriminate|].
    injection H as <- <-. reflexivity.
  - intros s z H. injection H as <-. apply steady_state_length.
Qed.

(** At 44100 Hz, with the textbook designers, an engine is built for every
    list of convertible bands, and it processes every block. *)
Lemma designed_engine_processes (extra_bands : option (list json)) (indata : block) :
  Forall (fun band => is_ok (band_params integer_float band)) (given_bands extra_bands) ->
  exists eng out eng',
    AudioProcessor_init textbook_lib integer_float 44100 1024 extra_bands = Ok eng /\
    _process eng indata = Ok (out, eng') /\
    length out = length indata /\
    well_formed eng'.
Proof.
  intro Hb.
  pose proof (design_eq_succeeds textbook_lib integer_float 44100 extra_bands
                textbook_range_checked ltac:(lia) Hb) as [chain Hd].
  assert (Hi : is_ok (AudioProcessor_init textbook_lib integer_float 44100 1024 extra_bands)).
  { unfold AudioProcessor_init. rewrite Hd. cbn [bind].
    destruct (map_result_ok (sosfilt_zi textbook_lib) chain) as [zs ->].
    - intro s. eexists. reflexivity.
    - cbn [bind]. eexists. reflexivity. }
  destruct Hi as [eng Hi].
  pose proof (init_well_formed textbook_lib integer_float 44100 1024 extra_bands eng
                textbook_normalised Hi) as Hwf.
  destruct (process_total eng indata Hwf) as [out [eng' [Hp [Hwf' [_ [_ Hlen]]]]]].
  exists eng, out, eng'. auto.
Qed.

(** The chain has 5 entries but 6 rows before the extra bands: the 4th-order
    low-pass of the textbook designer is one entry of two rows. *)
Lemma designed_chain_rows (fs : Z) (extra_bands : option (list json)) (chain : list sos) :
  design_eq textbook_lib integer_float fs extra_bands = Ok chain ->
  length chain = (5 + length (given_bands extra_bands))%nat /\
  length (concat chain) = (6 + length (given_bands extra_bands))%nat.
Proof.
  intro H.
  destruct (design_eq_inv textbook_lib integer_float fs extra_bands chain H)
    as [hp [b [a [bass [lp [extra [Hhp [_ [Hb [Hlp [Hfs [-> Hall]]]]]]]]]]]].
  assert (Hrows : forall N Wn bt s, textbook_butter N Wn bt fs = Ok s ->
                                    length s = (N / 2)%nat).
  { intros N Wn bt s Hs. unfold textbook_butter in Hs.
    destruct (Rlt_dec 0 Wn); [|discriminate].
    destruct (Rlt_dec Wn (IZR fs / 2)); [|discriminate].
    injection Hs as <-. now rewrite length_map, length_seq. }
  cbn [textbook_lib butter] in Hhp, Hb, Hlp.
  apply Hrows in Hhp, Hb, Hlp.
  assert (Hextra : length (concat extra) = length extra).
  { clear H. induction Hall as [|band s bands ss Hs _ IH]; [reflexivity|].
    destruct Hs as [f0 [gain [Q [_ Hs]]]].
    unfold _peaking_sos in Hs. rewrite peaking_rows_cookbook in Hs by assumption.
    injection Hs as <-. simpl. now rewrite IH. }
  rewrite length_app, concat_app, length_app, Hextra, (Forall2_length Hall).
  destruct b as [[bb0 bb1] bb2], a as [[aa0 aa1] aa2].
  cbn [concat sos_of_ba]. rewrite !length_app. cbn [length app].
  rewrite Hhp, Hb, Hlp. cbn. split; lia.
Qed.

(* ================================================================== *)
(** * Further properties of the code                                   *)
(* ================================================================== *)

(** ** The stream engine *)




(** X2: with designers that return normalised sections, an engine that
    [__init__] builds is well formed: one state per chain entry, each of
    the shape of its entry, and [bass_idx = 2] inside the chain; it keeps
    the sample rate and the frame size it was given. *)
Theorem init_builds_well_formed_engine :
  forall (lib : SignalLib) (float_of_string : string -> option R)
         (fs frame : Z) (extra_bands : option (list json)) (eng : AudioProcessor),
    normalised lib ->
    AudioProcessor_init lib float_of_string fs frame extra_bands = Ok eng ->
    well_formed eng /\
    length (zi eng) = length (sos_chain eng) /\
    bass_idx eng = 2%nat /\
    samplerate eng = fs /\
    frame_size eng = frame.
Proof.
  intros lib fos fs frame extra_bands eng Hn Hi.
  pose proof (init_well_formed lib fos fs frame extra_bands eng Hn Hi) as Hwf.
  split; [exact Hwf|].
  split; [symmetry; exact (Forall2_length (proj1 Hwf))|].
  unfold AudioProcessor_init in Hi.
  destruct (design_eq lib fos fs extra_bands) as [chain|]; [|discriminate].
  cbn [bind] in Hi.
  destruct (map_result (sosfilt_zi lib) chain) as [zs|]; [|discriminate].
  cbn [bind] in Hi. injection Hi as <-. repeat split.
Qed.

Lemma init_builds_well_formed_engine_witness :
  normalised textbook_lib /\
  exists eng,
    AudioProcessor_init textbook_lib integer_float 44100 1024
                        (Some [band_above_nyquist]) = Ok eng /\
    well_formed eng /\ bass_idx eng = 2%nat.
Proof.
  split; [exact textbook_normalised|].
  destruct (designed_engine_processes (Some [band_above_nyquist]) [])
    as [eng [_ [_ [Hi _]]]].
  { repeat constructor. eexists. exact band_above_nyquist_converts. }
  exists eng. split; [exact Hi|].
  destruct (init_builds_well_formed_engine textbook_lib integer_float 44100 1024
              (Some [band_above_nyquist]) eng textbook_normalised Hi)
    as [Hwf [_ [Hidx _]]].
  auto.
Defined.

(** *** Silence *)






Lemma silent_is_repeat (x : block) : silent x -> x = repeat 0 (length x).
Proof.
  induction 1 as [|v x Hv _ IH]; simpl; [reflexivity|]. now rewrite Hv, <- IH.
Qed.



(** *** The noise gate, in terms of sample amplitudes *)

Lemma Rsum_upper (l : list R) (c : R) :
  Forall (fun v => v <= c) l -> Rsum l <= INR (length l) * c.
Proof.
  induction 1 as [|v l Hv _ IH].
  - simpl. lra.
  - cbn [Rsum length]. rewrite S_INR. lra.
Qed.

Lemma Rsum_lower (l : list R) (c : R) :
  Forall (fun v => c <= v) l -> INR (length l) * c <= Rsum l.
Proof.
  induction 1 as [|v l Hv _ IH].
  - simpl. lra.
  - cbn [Rsum length]. rewrite S_INR. lra.
Qed.

Lemma block_length_pos (x : block) : x <> [] -> 0 < INR (length x).
Proof.
  intro H. destruct x; [contradiction|]. apply lt_0_INR. simpl. lia.
Qed.

Lemma rms_upper (x : block) (M : R) :
  x <> [] -> Forall (fun v => Rabs v <= M) x -> rms x <= M.
Proof.
  intros Hx H. pose proof (block_length_pos x Hx) as Hn.
  assert (HM : 0 <= M).
  { destruct H as [|v x' Hv _]; [contradiction|]. pose proof (Rabs_pos v). lra. }
  unfold rms, mean.
  rewrite <- (sqrt_pow2 M HM). apply sqrt_le_1_alt.
  assert (Hs : Rsum (map (fun v => v ^ 2) x) <= INR (length (map (fun v => v ^ 2) x)) * M ^ 2).
  { apply Rsum_upper, Forall_map. eapply Forall_impl; [|exact H].
    intros v Hv. cbv beta in *. rewrite <- pow2_abs.
    apply pow_incr. split; [apply Rabs_pos | exact Hv]. }
  rewrite length_map in *.
  apply (Rmult_le_reg_r (INR (length x))); [exact Hn|].
  unfold Rdiv. rewrite Rmult_assoc, Rinv_l by lra. lra.
Qed.

Lemma rms_lower (x : block) (m : R) :
  x <> [] -> 0 <= m -> Forall (fun v => m <= Rabs v) x -> m <= rms x.
Proof.
  intros Hx Hm H. pose proof (block_length_pos x Hx) as Hn.
  unfold rms, mean.
  rewrite <- (sqrt_pow2 m Hm). apply sqrt_le_1_alt.
  assert (Hs : INR (length (map (fun v => v ^ 2) x)) * m ^ 2 <= Rsum (map (fun v => v ^ 2) x)).
  { apply Rsum_lower, Forall_map. eapply Forall_impl; [|exact H].
    intros v Hv. cbv beta in *. rewrite <- (pow2_abs v).
    apply pow_incr. split; assumption. }
  rewrite length_map in *.
  apply (Rmult_le_reg_r (INR (length x))); [exact Hn|].
  unfold Rdiv. rewrite Rmult_assoc, Rinv_l by lra. lra.
Qed.

(** X4: the gate of [_process] in terms of amplitudes: a non-empty block
    whose samples all stay within 0.0056 of zero is replaced by zeros, and
    a non-empty block whose samples all have magnitude 0.0057 or more is
    returned as it is; the threshold [10 ** (-45 / 20)] lies strictly
    between the two. *)
Theorem gate_by_amplitude :
  forall x : block,
    x <> [] ->
    56 / 10000 < gate_threshold < 57 / 10000 /\
    (Forall (fun v => Rabs v <= 56 / 10000) x ->
     noise_gate x = repeat 0 (length x)) /\
    (Forall (fun v => 57 / 10000 <= Rabs v) x -> noise_gate x = x).
Proof.
  intros x Hx. pose proof gate_threshold_bounds as Hb.
  split; [exact Hb|]. unfold noise_gate. split; intro H.
  - pose proof (rms_upper x (56 / 10000) Hx H).
    destruct (Rlt_dec (rms x) gate_threshold); [apply vscale_zero | lra].
  - assert (H0 : 0 <= 57 / 10000) by lra.
    pose proof (rms_lower x (57 / 10000) Hx H0 H).
    destruct (Rlt_dec (rms x) gate_threshold); [lra | reflexivity].
Qed.

Lemma gate_by_amplitude_witness :
  [1 / 200; - (1 / 250)] <> [] /\
  noise_gate [1 / 200; - (1 / 250)] = [0; 0] /\
  noise_gate [1 / 100; -1] = [1 / 100; -1].
Proof.
  split; [discriminate|].
  destruct (gate_by_amplitude [1 / 200; - (1 / 250)] ltac:(discriminate)) as [_ [Hq _]].
  destruct (gate_by_amplitude [1 / 100; -1] ltac:(discriminate)) as [_ [_ Hl]].
  split.
  - apply Hq. repeat constructor.
    + rewrite Rabs_right; lra.
    + rewrite Rabs_left; lra.
  - apply Hl. repeat constructor.
    + rewrite Rabs_right; lra.
    + rewrite Rabs_left; lra.
Defined.

(** ** Peaking sections *)








(** ** Chain design and the bands of a preset *)

Section BandFacts.

Variable lib : SignalLib.
Variable float_of_string : string -> option R.

Lemma extra_band_loop_app (fs : Z) (bands1 bands2 : list json) :
  forall acc : list sos,
    extra_band_loop float_of_string fs (bands1 ++ bands2) acc
    = (chain <- extra_band_loop float_of_string fs bands1 acc ;;
       extra_band_loop float_of_string fs bands2 chain).
Proof.
  induction bands1 as [|band bands1 IH]; intro acc.
  - reflexivity.
  - cbn [app]. rewrite !extra_band_loop_step.
    destruct (band_params float_of_string band) as [[[f0 gain] Q]|]; [|reflexivity].
    cbn [bind].
    destruct (_peaking_sos f0 gain Q fs) as [s|]; [|reflexivity].
    cbn [bind]. apply IH.
Qed.

(** The fixed part of the design does not depend on the bands. *)
Lemma design_eq_as_loop (fs : Z) (bands : list json) :
  design_eq lib float_of_string fs (Some bands)
  = (fixed <- design_eq lib float_of_string fs None ;;
     extra_band_loop float_of_string fs bands fixed).
Proof.
  unfold design_eq.
  destruct (butter lib 2 80 High fs) as [hp|]; [|reflexivity]. cbn [bind].
  destruct (iirnotch lib 60 30 fs) as [[b a]|]; [|reflexivity]. cbn [bind].
  destruct (butter lib 2 120 Low fs) as [bass|]; [|reflexivity]. cbn [bind].
  destruct (peaking_rows 3000 3 1 fs) as [pres|]; [|reflexivity]. cbn [bind].
  destruct (butter lib 4 9000 Low fs) as [lp|]; [|reflexivity]. cbn [bind].
  destruct bands; reflexivity.
Qed.


End BandFacts.

(** X7: designing with more bands only appends sections: if [design_eq]
    succeeds on a list of bands and on that list followed by further bands,
    the longer chain starts with the shorter one and continues with one
    section per further band, in order; and an empty list of bands gives
    the chain of no bands at all. *)
Theorem more_bands_only_append_sections :
  forall (lib : SignalLib) (float_of_string : string -> option R) (fs : Z)
         (bands more : list json) (chain chain' : list sos),
    design_eq lib float_of_string fs (Some bands) = Ok chain ->
    design_eq lib float_of_string fs (Some (bands ++ more)) = Ok chain' ->
    firstn (length chain) chain' = chain /\
    length chain' = (length chain + length more)%nat /\
    Forall2 (section_of_band float_of_string fs) more (skipn (length chain) chain') /\
    design_eq lib float_of_string fs (Some []) = design_eq lib float_of_string fs None.
Proof.
  intros lib fos fs bands more chain chain' H H'.
  assert (Hnil : design_eq lib fos fs (Some []) = design_eq lib fos fs None)
    by reflexivity.
  rewrite design_eq_as_loop in H, H'.
  destruct (design_eq lib fos fs None) as [fixed|]; [|discriminate].
  cbn [bind] in H, H'.
  rewrite extra_band_loop_app, H in H'. cbn [bind] in H'.
  destruct (extra_band_loop_inv fos fs more chain chain' H') as [extra [-> Hall]].
  split; [|split; [|split]].
  - rewrite firstn_app, Nat.sub_diag, firstn_all. cbn [firstn]. apply app_nil_r.
  - rewrite length_app, (Forall2_length Hall). reflexivity.
  - rewrite skipn_app, Nat.sub_diag, skipn_all. exact Hall.
  - exact Hnil.
Qed.

Lemma more_bands_only_append_sections_witness :
  exists chain chain',
    design_eq textbook_lib integer_float 44100 (Some [band_above_nyquist]) = Ok chain /\
    design_eq textbook_lib integer_float 44100
              (Some ([band_above_nyquist] ++ [band_below_zero])) = Ok chain' /\
    firstn (length chain) chain' = chain /\
    length chain' = (length chain + 1)%nat.
Proof.
  destruct design_at_44100 as [chain Hc].
  destruct (design_eq_succeeds textbook_lib integer_float 44100
              (Some ([band_above_nyquist] ++ [band_below_zero]))
              textbook_range_checked) as [chain' Hc'].
  { lia. }
  { repeat constructor.
    - eexists. exact band_above_nyquist_converts.
    - eexists. exact band_below_zero_converts. }
  exists chain, chain'. split; [exact Hc|]. split; [exact Hc'|].
  destruct (more_bands_only_append_sections textbook_lib integer_float 44100
              [band_above_nyquist] [band_below_zero] chain chain' Hc Hc')
    as [H1 [H2 _]].
  auto.
Defined.



(** ** Frequency detection and the tuner, further *)

Lemma dominant_freq_cases (x : block) (fs : Z) :
  x <> [] -> fs <> 0%Z ->
  exists mag idx,
    magnitude_spectrum x = Ok mag /\
    (idx < length x / 2 + 1)%nat /\
    idx = argmax mag /\
    (nth idx mag 0 < quiet_floor -> _dominant_freq x fs = Ok None) /\
    (~ nth idx mag 0 < quiet_floor ->
     _dominant_freq x fs = Ok (Some (INR idx * IZR fs / INR (length x)))).
Proof.
  intros Hx Hfs.
  pose proof (magnitude_spectrum_nonempty x Hx) as Hm.
  set (mag := map cabs _) in Hm.
  assert (Hlen : length mag = (length x / 2 + 1)%nat).
  { unfold mag. now rewrite !length_map, length_seq. }
  assert (Hne : mag <> []).
  { intro E. rewrite E in Hlen. simpl in Hlen. lia. }
  destruct (argmax_spec mag Hne) as [Hidx _].
  exists mag, (argmax mag).
  split; [exact Hm|]. split; [lia|]. split; [reflexivity|].
  unfold _dominant_freq. rewrite Hm. cbn [bind].
  destruct (Z.eqb_spec fs 0) as [|_]; [contradiction|]. cbn [bind].
  split; intro Hp.
  - destruct (Rlt_dec (nth (argmax mag) mag 0) quiet_floor); [reflexivity|contradiction].
  - destruct (Rlt_dec (nth (argmax mag) mag 0) quiet_floor); [contradiction|].
    do 2 f_equal.
    rewrite vmul_length by (now rewrite hanning_length).
    unfold rfftfreq. rewrite nth_map_seq by lia.
    assert (INR (length x) <> 0).
    { apply not_0_INR. destruct x; [contradiction | discriminate]. }
    assert (IZR fs <> 0) by (now apply not_0_IZR).
    field. auto.
Qed.

Lemma dominant_freq_silent (x : block) (fs : Z) :
  x <> [] -> fs <> 0%Z -> silent x -> _dominant_freq x fs = Ok None.
Proof.
  intros Hx Hfs Hz.
  destruct (dominant_freq_cases x fs Hx Hfs) as [mag [idx [Hm [_ [_ [Hnone _]]]]]].
  apply Hnone.
  rewrite (magnitude_spectrum_nonempty x Hx) in Hm. injection Hm as <-.
  rewrite nth_zeros.
  - unfold quiet_floor. lra.
  - rewrite map_map. apply Forall_map, Forall_forall.
    intros k _. apply dft_bin_zeros. now apply vmul_zeros.
Qed.

(** X9: [_dominant_freq] raises [ValueError] on an empty recording,
    whatever the sample rate, and [ZeroDivisionError] on a non-empty
    recording at sample rate 0; in every other case it returns [None] or a
    frequency. *)
Theorem dominant_freq_errors :
  forall (x : block) (fs : Z),
    (x = [] -> _dominant_freq x fs = Raise ValueError) /\
    (x <> [] -> fs = 0%Z -> _dominant_freq x fs = Raise ZeroDivisionError) /\
    (x <> [] -> fs <> 0%Z -> is_ok (_dominant_freq x fs)).
Proof.
  intros x fs. split; [|split].
  - intros ->. reflexivity.
  - intros Hx ->. unfold _dominant_freq.
    rewrite (magnitude_spectrum_nonempty x Hx). reflexivity.
  - intros Hx Hfs.
    destruct (dominant_freq_cases x fs Hx Hfs) as [mag [idx [_ [_ [_ [Hnone Hsome]]]]]].
    destruct (Rlt_dec (nth idx mag 0) quiet_floor) as [Hp|Hp].
    + eexists. exact (Hnone Hp).
    + eexists. exact (Hsome Hp).
Qed.

Lemma dominant_freq_errors_witness :
  _dominant_freq [] 44100 = Raise ValueError /\
  _dominant_freq [1; 2] 0 = Raise ZeroDivisionError /\
  is_ok (_dominant_freq [1; 2] 44100).
Proof.
  destruct (dominant_freq_errors [] 44100) as [H1 _].
  destruct (dominant_freq_errors [1; 2] 0) as [_ [H2 _]].
  destruct (dominant_freq_errors [1; 2] 44100) as [_ [_ H3]].
  split; [apply H1; reflexivity|].
  split; [apply H2; [discriminate | reflexivity]|].
  apply H3; [discriminate | lia].
Defined.

(** X10: at a positive sample rate, a frequency [_dominant_freq] returns
    is never negative and never above the Nyquist frequency [fs / 2]. *)
Theorem detected_frequency_within_nyquist :
  forall (x : block) (fs : Z) (f : R),
    (0 < fs)%Z ->
    _dominant_freq x fs = Ok (Some f) ->
    0 <= f <= IZR fs / 2.
Proof.
  intros x fs f Hfs H.
  destruct x as [|v x]; [discriminate|].
  destruct (dominant_freq_cases (v :: x) fs) as [mag [idx [_ [Hidx [_ [Hnone Hsome]]]]]];
    [discriminate | lia |].
  destruct (Rlt_dec (nth idx mag 0) quiet_floor) as [Hp|Hp].
  { rewrite (Hnone Hp) in H. discriminate. }
  rewrite (Hsome Hp) in H. injection H as <-.
  set (n := length (v :: x)) in *.
  assert (Hn : 0 < INR n) by (apply lt_0_INR; unfold n; simpl; lia).
  assert (Hf : 0 < IZR fs) by (now apply IZR_lt).
  assert (H2 : 2 * INR idx <= INR n).
  { pose proof (Nat.Div0.mul_div_le n 2) as Hdiv.
    assert (Hle : (2 * idx <= n)%nat) by lia.
    apply le_INR in Hle. rewrite mult_INR in Hle.
    replace (INR 2) with 2 in Hle by (simpl; lra). exact Hle. }
  pose proof (pos_INR idx) as Hi.
  split.
  - apply Rmult_le_pos; [apply Rmult_le_pos; lra|].
    apply Rlt_le, Rinv_0_lt_compat, Hn.
  - apply (Rmult_le_reg_r (INR n)); [exact Hn|].
    unfold Rdiv. rewrite Rmult_assoc, Rinv_l by lra. nra.
Qed.

Lemma detected_frequency_within_nyquist_witness :
  (0 < 44100)%Z /\ _dominant_freq [1] 44100 = Ok (Some 0) /\
  0 <= 0 <= IZR 44100 / 2.
Proof.
  assert (H1 : (0 < 44100)%Z) by lia.
  assert (H2 : _dominant_freq [1] 44100 = Ok (Some 0)).
  { apply dominant_freq_single; [lia|]. unfold quiet_floor. rewrite Rabs_R1. lra. }
  split; [exact H1|]. split; [exact H2|].
  exact (detected_frequency_within_nyquist [1] 44100 0 H1 H2).
Defined.

Section SessionFacts.

Variable strip : string -> string.
Variable float_of_string : string -> option R.
Variable mic : nat -> block.
Variable sr : Z.

Hypothesis sr_not_zero : sr <> 0%Z.
Hypothesis mic_records : forall k, mic k <> [].

Lemma silent_mic_accepts_nothing (n : nat) :
  (forall k, silent (mic k)) ->
  forall (lines : list string) (k : nat) (acc bands : list json),
    (length lines <= n)%nat ->
    snd (tuner_loop strip float_of_string mic sr lines k acc) = Ok bands ->
    bands = acc.
Proof.
  intro Hsil. induction n as [|n IH]; intros lines k acc bands Hlen H.
  - destruct lines; [discriminate | simpl in Hlen; lia].
  - destruct lines as [|l_name rest]; [discriminate|].
    cbn [tuner_loop say snd] in H.
    destruct (String.eqb (strip l_name) EmptyString).
    { now injection H as <-. }
    destruct rest as [|l_enter rest1]; [discriminate|].
    simpl in Hlen. cbn [say snd] in H.
    rewrite (dominant_freq_silent (mic k) sr (mic_records k) sr_not_zero (Hsil k)) in H.
    cbn [say snd] in H. apply IH in H; [exact H | lia].
Qed.

Lemma unfinished_input_raises (n : nat) :
  forall (lines : list string) (k : nat) (acc : list json),
    (length lines <= n)%nat ->
    Forall (fun l => strip l <> EmptyString) lines ->
    snd (tuner_loop strip float_of_string mic sr lines k acc) = Raise EOFError.
Proof.
  induction n as [|n IH]; intros lines k acc Hlen Hall.
  - destruct lines; [reflexivity | simpl in Hlen; lia].
  - destruct lines as [|l_name rest]; [reflexivity|].
    inversion Hall as [|? ? Hname Hrest]; subst.
    cbn [tuner_loop say snd].
    destruct (String.eqb_spec (strip l_name) EmptyString); [contradiction|].
    destruct rest as [|l_enter rest1]; [reflexivity|].
    inversion Hrest as [|? ? _ Hrest1]; subst.
    simpl in Hlen. cbn [say snd].
    destruct (dominant_freq_errors (mic k) sr) as [_ [_ Hok]].
    destruct (Hok (mic_records k) sr_not_zero) as [[freq|] ->]; cbn [say snd].
    + destruct rest1 as [|l_gain rest2]; [reflexivity|].
      inversion Hrest1 as [|? ? _ Hrest2]; subst.
      destruct (read_entry strip float_of_string 6 InvalidGain l_gain) as [g ng].
      cbn [say snd].
      destruct rest2 as [|l_q rest3]; [reflexivity|].
      inversion Hrest2 as [|? ? _ Hrest3]; subst.
      destruct (read_entry strip float_of_string 4 InvalidQ l_q) as [q nq].
      cbn [say snd]. simpl in Hlen. apply IH; [lia | exact Hrest3].
    + apply IH; [lia | exact Hrest1].
Qed.

End SessionFacts.

Lemma run_tuner_cases (strip : string -> string) (float_of_string : string -> option R)
    (mic : nat -> block) (path : string) (sr : Z) (lines : list string) (fs : files) :
  let r := snd (tuner_loop strip float_of_string mic sr lines 0 []) in
  (forall e, r = Raise e ->
             snd (fst (run_tuner strip float_of_string mic path sr lines fs)) = Raise e /\
             snd (run_tuner strip float_of_string mic path sr lines fs) = fs) /\
  (r = Ok [] ->
   snd (fst (run_tuner strip float_of_string mic path sr lines fs)) = Raise (SystemExit 1) /\
   snd (run_tuner strip float_of_string mic path sr lines fs) = fs) /\
  (forall bands, r = Ok bands -> bands <> [] ->
                 snd (fst (run_tuner strip float_of_string mic path sr lines fs)) = Ok tt /\
                 snd (run_tuner strip float_of_string mic path sr lines fs)
                 = save_preset path bands fs).
Proof.
  unfold run_tuner.
  destruct (tuner_loop strip float_of_string mic sr lines 0 []) as [out [bands|e]];
    cbn [snd fst].
  - split; [intros e H; discriminate|]. split.
    + intro H. injection H as ->. auto.
    + intros bands' H Hne. injection H as ->.
      destruct bands'; [contradiction|]. auto.
  - split; [intros e' H; injection H as <-; auto|].
    split; [intro H; discriminate | intros bands H; discriminate].
Qed.

(** X11: with a microphone that only ever records silence, the tuner
    accepts no sound: [run_tuner] never returns normally and never writes
    a file, and a session that is ended with the empty name exits with
    code 1. *)
Theorem silent_microphone_never_saves :
  forall (strip : string -> string) (float_of_string : string -> option R)
         (mic : nat -> block) (path : string) (sr : Z) (lines : list string)
         (fs : files),
    sr <> 0%Z ->
    (forall k, mic k <> [] /\ silent (mic k)) ->
    snd (fst (run_tuner strip float_of_string mic path sr lines fs)) <> Ok tt /\
    snd (run_tuner strip float_of_string mic path sr lines fs) = fs /\
    (is_ok (snd (tuner_loop strip float_of_string mic sr lines 0 [])) ->
     snd (fst (run_tuner strip float_of_string mic path sr lines fs))
     = Raise (SystemExit 1)).
Proof.
  intros strip fos mic path sr lines fs Hsr Hmic.
  pose proof (run_tuner_cases strip fos mic path sr lines fs) as [Hraise [Hnone _]].
  cbv zeta in *.
  destruct (snd (tuner_loop strip fos mic sr lines 0 [])) as [bands|e] eqn:E.
  - assert (bands = []) as ->.
    { apply (silent_mic_accepts_nothing strip fos mic sr Hsr (fun k => proj1 (Hmic k))
               (length lines) (fun k => proj2 (Hmic k)) lines 0%nat [] bands
               (Nat.le_refl _) E). }
    destruct (Hnone eq_refl) as [Hr Hf]. rewrite Hr.
    split; [discriminate|]. split; [exact Hf | reflexivity].
  - destruct (Hraise e eq_refl) as [Hr Hf]. rewrite Hr.
    split; [discriminate|]. split; [exact Hf|]. intros [a Ha]. discriminate.
Qed.

Lemma silent_microphone_never_saves_witness :
  (44100 <> 0)%Z /\ (forall k, dead_mic k <> [] /\ silent (dead_mic k)) /\
  run_tuner ascii_strip integer_float dead_mic "preset.json" 44100 two_tries []
  = ([Banner; AskName; AskEnter; Recording; RecordingDone; NoDominantFreq;
      AskName; AskEnter; Recording; RecordingDone; NoDominantFreq;
      AskName; NoBands],
     Raise (SystemExit 1), []).
Proof.
  assert (H1 : (44100 <> 0)%Z) by lia.
  assert (H2 : forall k, dead_mic k <> [] /\ silent (dead_mic k)).
  { intro k. split; [discriminate | repeat constructor]. }
  split; [exact H1|]. split; [exact H2|].
  pose proof (silent_microphone_never_saves ascii_strip integer_float dead_mic
                "preset.json" 44100 two_tries [] H1 H2) as [_ [_ Hexit]].
  assert (Hloop : tuner_loop ascii_strip integer_float dead_mic 44100 two_tries 0 []
                  = ([AskName; AskEnter; Recording; RecordingDone; NoDominantFreq;
                      AskName; AskEnter; Recording; RecordingDone; NoDominantFreq;
                      AskName], Ok [])).
  { unfold two_tries.
    rewrite tuner_loop_skips;
      [| discriminate | apply dominant_freq_silent; [discriminate | lia | apply H2]].
    rewrite tuner_loop_skips;
      [| discriminate | apply dominant_freq_silent; [discriminate | lia | apply H2]].
    rewrite tuner_loop_finishes by reflexivity. reflexivity. }
  rewrite Hloop in Hexit. cbn [snd] in Hexit.
  specialize (Hexit ltac:(eexists; reflexivity)).
  unfold run_tuner in *. rewrite Hloop in *. reflexivity.
Defined.

(** X12: if the input ends before an empty name is entered (no line is
    blank), [run_tuner] raises [EOFError] and writes no file: the bands
    accepted so far are lost. *)
Theorem unfinished_session_saves_nothing :
  forall (strip : string -> string) (float_of_string : string -> option R)
         (mic : nat -> block) (path : string) (sr : Z) (lines : list string)
         (fs : files),
    sr <> 0%Z ->
    (forall k, mic k <> []) ->
    Forall (fun l => strip l <> EmptyString) lines ->
    snd (fst (run_tuner strip float_of_string mic path sr lines fs)) = Raise EOFError /\
    snd (run_tuner strip float_of_string mic path sr lines fs) = fs.
Proof.
  intros strip fos mic path sr lines fs Hsr Hmic Hall.
  pose proof (run_tuner_cases strip fos mic path sr lines fs) as [Hraise _].
  apply Hraise.
  exact (unfinished_input_raises strip fos mic sr Hsr Hmic (length lines) lines 0%nat []
           (Nat.le_refl _) Hall).
Qed.

Lemma unfinished_session_saves_nothing_witness :
  (44100 <> 0)%Z /\ (forall k, unit_mic k <> []) /\
  Forall (fun l => ascii_strip l <> EmptyString) cut_short /\
  snd (fst (run_tuner ascii_strip integer_float unit_mic "preset.json" 44100
                      cut_short []))
  = Raise EOFError /\
  snd (run_tuner ascii_strip integer_float unit_mic "preset.json" 44100 cut_short [])
  = [].
Proof.
  assert (H1 : (44100 <> 0)%Z) by lia.
  assert (H2 : forall k, unit_mic k <> []) by (intro k; discriminate).
  assert (H3 : Forall (fun l => ascii_strip l <> EmptyString) cut_short)
    by (repeat constructor; discriminate).
  split; [exact H1|]. split; [exact H2|]. split; [exact H3|].
  exact (unfinished_session_saves_nothing ascii_strip integer_float unit_mic
           "preset.json" 44100 cut_short [] H1 H2 H3).
Defined.





(** X14: [run_tuner] writes at most one file, the one at [preset_path]:
    every other path reads after the call as it did before, and when the
    call does not return normally no file has changed at all. *)
Theorem run_tuner_touches_only_its_preset :
  forall (strip : string -> string) (float_of_string : string -> option R)
         (mic : nat -> block) (path : string) (sr : Z) (lines : list string)
         (fs : files),
    (forall other, other <> path ->
        read_text (snd (run_tuner strip float_of_string mic path sr lines fs)) other
        = read_text fs other) /\
    (snd (fst (run_tuner strip float_of_string mic path sr lines fs)) <> Ok tt ->
     snd (run_tuner strip float_of_string mic path sr lines fs) = fs).
Proof.
  intros strip fos mic path sr lines fs.
  pose proof (run_tuner_cases strip fos mic path sr lines fs) as [Hraise [Hnone Hsave]].
  cbv zeta in *.
  destruct (snd (tuner_loop strip fos mic sr lines 0 [])) as [bands|e] eqn:E.
  - destruct bands as [|b bands].
    + destruct (Hnone eq_refl) as [_ ->]. auto.
    + destruct (Hsave (b :: bands) eq_refl ltac:(discriminate)) as [Hr ->].
      split.
      * intros other Hne. unfold save_preset, write_text. cbn [read_text].
        destruct (String.eqb_spec path other); [congruence | reflexivity].
      * intro Hn. contradiction.
  - destruct (Hraise e eq_refl) as [_ ->]. auto.
Qed.

(** ** Presets, further *)

Lemma read_text_absent (fs : files) (path : string) :
  (forall p c, In (p, c) fs -> p <> path) -> read_text fs path = Raise FileNotFoundError.
Proof.
  induction fs as [|[p c] fs IH]; intro H; cbn [read_text]; [reflexivity|].
  destruct (String.eqb_spec p path) as [->|_].
  - exfalso. apply (H path c); [left; reflexivity | reflexivity].
  - apply IH. intros p' c' Hin. apply (H p' c'). now right.
Qed.


(** X16: [load_preset] raises [FileNotFoundError] when no file is at the
    path, [ValueError] when the file is not JSON, and [AttributeError]
    when the file is JSON but not an object (a list of bands, a number). *)
Theorem load_preset_errors :
  forall (path : string) (fs : files),
    ((forall p c, In (p, c) fs -> p <> path) ->
     load_preset path fs = Raise FileNotFoundError) /\
    (forall text, read_text fs path = Ok (NotJson text) ->
                  load_preset path fs = Raise ValueError) /\
    (forall value, read_text fs path = Ok (Document value) ->
                   (forall d, value <> JObj d) ->
                   load_preset path fs = Raise AttributeError).
Proof.
  intros path fs. split; [|split].
  - intro H. unfold load_preset. now rewrite read_text_absent.
  - intros text H. unfold load_preset. rewrite H. reflexivity.
  - intros value H Hv. unfold load_preset. rewrite H. cbn [bind json_loads].
    destruct value; try reflexivity. exfalso. now apply (Hv fields).
Qed.

Lemma load_preset_errors_witness :
  load_preset "missing.json" hand_written = Raise FileNotFoundError /\
  load_preset "notes.txt" [("notes.txt"%string, NotJson "to do")] = Raise ValueError /\
  load_preset "bands.json" [("bands.json"%string, Document (JArr [band_at_1000]))]
  = Raise AttributeError.
Proof.
  split; [|split].
  - apply (load_preset_errors "missing.json" hand_written).
    intros p c [H|[]]. injection H as <- _. discriminate.
  - apply (proj1 (proj2 (load_preset_errors "notes.txt"
                           [("notes.txt"%string, NotJson "to do")])) "to do"%string).
    reflexivity.
  - apply (proj2 (proj2 (load_preset_errors "bands.json"
                           [("bands.json"%string, Document (JArr [band_at_1000]))]))
             (JArr [band_at_1000])).
    + reflexivity.
    + intros d H. discriminate.
Defined.

(** ** The observation buffer, further *)

Lemma lastn_all {A : Type} (n : nat) (l : list A) :
  (length l <= n)%nat -> lastn n l = l.
Proof.
  intro H. unfold lastn. replace (length l - n)%nat with 0%nat by lia. reflexivity.
Qed.

Lemma lastn_length {A : Type} (n : nat) (l : list A) :
  length (lastn n l) = Nat.min n (length l).
Proof. unfold lastn. rewrite length_skipn. lia. Qed.

Lemma tl_skipn_snoc {A : Type} (l : list A) (item : A) :
  forall k, (k < length l)%nat ->
            tl (skipn k l ++ [item]) = skipn (S k) (l ++ [item]).
Proof.
  induction l as [|a l IH]; intros k Hk; [simpl in Hk; lia|].
  destruct k as [|k].
  - reflexivity.
  - change (skipn (S k) (a :: l)) with (skipn k l).
    change (skipn (S (S k)) ((a :: l) ++ [item])) with (skipn (S k) (l ++ [item])).
    apply IH. simpl in Hk. lia.
Qed.

(** Appending to a deque that holds the last [n] items of a history gives
    the last [n] items of the longer history. *)
Lemma deque_append_lastn {A : Type} (n : nat) (l : list A) (item : A) :
  deque_append (Z.of_nat n) (lastn n l) item = lastn n (l ++ [item]).
Proof.
  destruct (Nat.lt_ge_cases (length l) n) as [Hlt|Hge].
  - rewrite (lastn_all n l) by lia.
    rewrite deque_append_room by lia.
    symmetry. apply lastn_all. rewrite length_app. simpl. lia.
  - unfold deque_append.
    destruct (Z.ltb_spec (Z.of_nat n) (Z.of_nat (length (lastn n l ++ [item])))) as [_|Hno].
    2:{ rewrite length_app, lastn_length in Hno. simpl in Hno. lia. }
    unfold lastn. rewrite length_app. cbn [length].
    destruct n as [|n].
    + rewrite !Nat.sub_0_r.
      rewrite (skipn_all2 l) by lia.
      rewrite (skipn_all2 (l ++ [item])) by (rewrite length_app; simpl; lia).
      reflexivity.
    + replace (length l + 1 - S n)%nat with (S (length l - S n)) by lia.
      apply tl_skipn_snoc. lia.
Qed.

Lemma add_all_is_lastn (blocks : list (block * block)) :
  forall (n : nat) (seen : list (block * block)) (self : WaveSpectrogramViewer),
    nbuf self = Z.of_nat n ->
    pre_buf self = lastn n (map fst seen) ->
    post_buf self = lastn n (map snd seen) ->
    pre_buf (add_all self blocks) = lastn n (map fst (seen ++ blocks)) /\
    post_buf (add_all self blocks) = lastn n (map snd (seen ++ blocks)) /\
    nbuf (add_all self blocks) = Z.of_nat n /\
    sr (add_all self blocks) = sr self.
Proof.
  induction blocks as [|[pre post] blocks IH]; intros n seen self Hn Hpre Hpost.
  - rewrite app_nil_r. auto.
  - cbn [add_all].
    replace (seen ++ (pre, post) :: blocks) with ((seen ++ [(pre, post)]) ++ blocks)
      by (now rewrite <- app_assoc).
    destruct (IH n (seen ++ [(pre, post)]) (add_data self pre post)) as [H1 [H2 [H3 H4]]].
    + exact Hn.
    + cbn [add_data pre_buf]. rewrite Hn, Hpre, map_app. apply deque_append_lastn.
    + cbn [add_data post_buf]. rewrite Hn, Hpost, map_app. apply deque_append_lastn.
    + auto.
Qed.

(** X17: each buffer of a viewer holds the most recent blocks it was
    given, oldest first, as many as [nbuf = buffer_seconds * samplerate]
    allows: after any sequence of [add_data] on a new viewer, [pre_buf] is
    the last [nbuf] pre-filter blocks and [post_buf] the last [nbuf]
    post-filter blocks, and the snapshot is their concatenation. *)
Theorem buffers_hold_the_latest_blocks :
  forall (samplerate buffer_seconds : Z) (v : WaveSpectrogramViewer)
         (blocks : list (block * block)),
    WaveSpectrogramViewer_init samplerate buffer_seconds = Ok v ->
    let n := Z.to_nat (buffer_seconds * samplerate) in
    pre_buf (add_all v blocks) = lastn n (map fst blocks) /\
    post_buf (add_all v blocks) = lastn n (map snd blocks) /\
    snapshot (add_all v blocks)
    = (concat (lastn n (map fst blocks)), concat (lastn n (map snd blocks))).
Proof.
  intros samplerate buffer_seconds v blocks Hinit n.
  unfold WaveSpectrogramViewer_init in Hinit.
  destruct (Z.ltb_spec (buffer_seconds * samplerate) 0) as [|Hpos]; [discriminate|].
  injection Hinit as <-.
  destruct (add_all_is_lastn blocks n [] (MkViewer samplerate (buffer_seconds * samplerate) [] []))
    as [H1 [H2 _]].
  - cbn [nbuf]. unfold n. lia.
  - reflexivity.
  - reflexivity.
  - cbn [app] in H1, H2. unfold snapshot. rewrite H1, H2. auto.
Qed.

Lemma buffers_hold_the_latest_blocks_witness :
  WaveSpectrogramViewer_init 2 1 = Ok tiny_viewer /\
  pre_buf (add_all tiny_viewer three_pairs) = [[2]; [3]] /\
  snapshot (add_all tiny_viewer three_pairs) = ([2; 3], [20; 30]).
Proof.
  split; [reflexivity|].
  destruct (buffers_hold_the_latest_blocks 2 1 tiny_viewer three_pairs eq_refl)
    as [H1 [_ H3]].
  split; [exact H1 | exact H3].
Defined.

(** X18: the two buffers of a viewer stay in step and within [nbuf]
    blocks: after any sequence of [add_data] on a new viewer they hold the
    same number of blocks, never more than [nbuf], and a viewer of
    capacity 0 never holds anything. *)
Theorem buffers_stay_in_step :
  forall (samplerate buffer_seconds : Z) (v : WaveSpectrogramViewer)
         (blocks : list (block * block)),
    WaveSpectrogramViewer_init samplerate buffer_seconds = Ok v ->
    length (pre_buf (add_all v blocks)) = length (post_buf (add_all v blocks)) /\
    (Z.of_nat (length (pre_buf (add_all v blocks))) <= buffer_seconds * samplerate)%Z /\
    ((buffer_seconds * samplerate = 0)%Z -> snapshot (add_all v blocks) = ([], [])).
Proof.
  intros samplerate buffer_seconds v blocks Hinit.
  unfold WaveSpectrogramViewer_init in Hinit.
  destruct (Z.ltb_spec (buffer_seconds * samplerate) 0) as [|Hpos]; [discriminate|].
  injection Hinit as <-.
  destruct (add_all_is_lastn blocks (Z.to_nat (buffer_seconds * samplerate)) []
              (MkViewer samplerate (buffer_seconds * samplerate) [] []))
    as [H1 [H2 _]]; [cbn [nbuf]; lia | reflexivity | reflexivity |].
  cbn [app] in H1, H2. unfold snapshot. rewrite H1, H2, !lastn_length, !length_map.
  split; [reflexivity|]. split; [lia|].
  intro H0. rewrite H0. unfold lastn. cbn [Z.to_nat]. rewrite !Nat.sub_0_r.
  rewrite !skipn_all2 by (rewrite length_map; lia). reflexivity.
Qed.

Lemma buffers_stay_in_step_witness :
  WaveSpectrogramViewer_init 0 3 = Ok (MkViewer 0 0 [] []) /\
  snapshot (add_all (MkViewer 0 0 [] []) three_pairs) = ([], []).
Proof.
  split; [reflexivity|].
  destruct (buffers_stay_in_step 0 3 (MkViewer 0 0 [] []) three_pairs eq_refl)
    as [_ [_ H]].
  apply H. reflexivity.
Defined.

(** ** The stream callback *)





(** ** The spectrogram column *)

Lemma resize_length (n : nat) (a : block) : length (resize n a) = n.
Proof.
  unfold resize. rewrite length_firstn, length_app, repeat_length. lia.
Qed.

Lemma Forall_firstn_keeps {A : Type} (P : A -> Prop) (n : nat) (l : list A) :
  Forall P l -> Forall P (firstn n l).
Proof.
  intro H. revert n. induction H as [|a l Ha Hl IH]; intros [|n]; cbn [firstn]; auto.
Qed.

Lemma Forall_skipn_keeps {A : Type} (P : A -> Prop) (n : nat) (l : list A) :
  Forall P l -> Forall P (skipn n l).
Proof.
  intro H. revert n. induction H as [|a l Ha Hl IH]; intros [|n]; cbn [skipn]; auto.
Qed.

Lemma resize_silent (n : nat) (a : block) : silent a -> silent (resize n a).
Proof.
  intro H. unfold resize, silent. apply Forall_firstn_keeps, Forall_app.
  split; [exact H|]. apply repeat_all_zero.
Qed.

Lemma last_samples_silent (nbuf : Z) (signal : block) :
  silent signal -> silent (last_samples nbuf signal).
Proof.
  intro H. unfold last_samples.
  destruct (Z.eqb nbuf 0); [exact H|].
  destruct (Z.ltb 0 nbuf); apply Forall_skipn_keeps; exact H.
Qed.

Lemma ln_10_pos : 0 < ln 10.
Proof. rewrite <- ln_1. apply ln_increasing; lra. Qed.

Lemma log10_floor_value : 20 * log10 (0 + 1 / 1000000) = -120.
Proof.
  unfold log10. pose proof ln_10_pos as HL.
  replace (0 + 1 / 1000000) with (/ 10 ^ 6) by (simpl; field).
  rewrite ln_Rinv by (apply pow_lt; lra).
  rewrite ln_pow by lra.
  replace (INR 6) with 6 by (simpl; lra). field. lra.
Qed.

Lemma log10_floor (s : R) : 0 <= s -> -120 <= 20 * log10 (s + 1 / 1000000).
Proof.
  intros [Hs|<-]; [|rewrite log10_floor_value; lra].
  rewrite <- log10_floor_value. unfold log10. pose proof ln_10_pos as HL.
  assert (Hln : ln (0 + 1 / 1000000) < ln (s + 1 / 1000000))
    by (apply ln_increasing; lra).
  apply Rmult_le_compat_l; [lra|].
  apply Rmult_le_compat_r; [|lra].
  apply Rlt_le, Rinv_0_lt_compat, HL.
Qed.

Lemma cabs_nonneg (c : R * R) : 0 <= cabs c.
Proof. unfold cabs. apply sqrt_pos. Qed.

Lemma spec_of_long_signal (nbuf : Z) (signal : block) :
  (256 <= length signal)%nat ->
  _spec nbuf signal
  = Ok (Some (map (fun s => 20 * log10 (s + 1 / 1000000))
                  (map cabs (map (dft_bin (resize nfft (last_samples nbuf signal)))
                                 (seq 0 129))))).
Proof.
  intro Hlen. unfold _spec.
  destruct (Nat.ltb_spec (length signal) nfft) as [Hlt|_]; [unfold nfft in Hlt; lia|].
  unfold rfft.
  pose proof (resize_length nfft (last_samples nbuf signal)) as Hr.
  destruct (resize nfft (last_samples nbuf signal)) as [|w ws] eqn:E.
  - unfold nfft in Hr. simpl in Hr. lia.
  - cbn [bind]. rewrite Hr. reflexivity.
Qed.

(** X20: [_spec] draws nothing until 256 samples are buffered; from then
    on it returns a column of 129 values, one per bin of the 256-point
    transform, none below -120 dB, and exactly -120 dB throughout for a
    silent signal. *)
Theorem spec_column_shape_and_floor :
  forall (nbuf : Z) (signal : block),
    ((length signal < 256)%nat -> _spec nbuf signal = Ok None) /\
    ((256 <= length signal)%nat ->
     exists col,
       _spec nbuf signal = Ok (Some col) /\
       length col = 129%nat /\
       Forall (fun v => -120 <= v) col /\
       (silent signal -> Forall (fun v => v = -120) col)).
Proof.
  intros nbuf signal. split.
  - intro H. unfold _spec.
    destruct (Nat.ltb_spec (length signal) nfft) as [_|Hge]; [reflexivity|].
    unfold nfft in Hge. lia.
  - intro H. eexists. split; [apply spec_of_long_signal, H|].
    split; [now rewrite !length_map, length_seq|]. split.
    + rewrite map_map. apply Forall_map, Forall_forall. intros c _.
      apply log10_floor, cabs_nonneg.
    + intro Hs. rewrite !map_map. apply Forall_map, Forall_forall. intros k _.
      rewrite dft_bin_zeros by (apply resize_silent, last_samples_silent, Hs).
      apply log10_floor_value.
Qed.

Lemma spec_column_shape_and_floor_witness :
  (length [1; 2; 3] < 256)%nat /\ _spec 6 [1; 2; 3] = Ok None /\
  (256 <= length (repeat 0 300))%nat /\
  exists col, _spec 6 (repeat 0 300) = Ok (Some col) /\ length col = 129%nat.
Proof.
  assert (H1 : (length [1; 2; 3] < 256)%nat) by (simpl; lia).
  assert (H2 : (256 <= length (repeat 0 300))%nat) by (rewrite repeat_length; lia).
  split; [exact H1|].
  split; [exact (proj1 (spec_column_shape_and_floor 6 [1; 2; 3]) H1)|].
  split; [exact H2|].
  destruct (proj2 (spec_column_shape_and_floor 6 (repeat 0 300)) H2)
    as [col [Hc [Hl _]]].
  exists col. auto.
Defined.

(** ** Linearity of the cascade *)

Lemma bind_ok_inv {A B : Type} (m : result A) (k : A -> result B) (v : B) :
  bind m k = Ok v -> exists a, m = Ok a /\ k a = Ok v.
Proof. destruct m as [a|e]; [|discriminate]. intro H. exists a. auto. Qed.

Lemma mix_cons (c v u : R) (x y : block) :
  mix c (v :: x) (u :: y) = (v * c + u) :: mix c x y.
Proof. reflexivity. Qed.

Lemma mix_length (c : R) (x y : block) :
  length x = length y -> length (mix c x y) = length x.
Proof.
  intro H. unfold mix. rewrite vadd_length; rewrite vscale_length; auto.
Qed.

Lemma mix_state_cons (c z0 z1 w0 w1 : R) (z w : sos_state) :
  mix_state c ((z0, z1) :: z) ((w0, w1) :: w)
  = (z0 * c + w0, z1 * c + w1) :: mix_state c z w.
Proof. reflexivity. Qed.

Lemma mix_state_length (c : R) (z w : sos_state) :
  length z = length w -> length (mix_state c z w) = length z.
Proof.
  intro H. unfold mix_state. rewrite length_map, length_combine. lia.
Qed.

Lemma sos_sample_mix (c : R) (s : sos) : forall (z w : sos_state) (v u : R),
  length z = length s -> length w = length s ->
  sos_sample s (mix_state c z w) (v * c + u)
  = (fst (sos_sample s z v) * c + fst (sos_sample s w u),
     mix_state c (snd (sos_sample s z v)) (snd (sos_sample s w u))).
Proof.
  induction s as [|q s IH]; intros z w v u Hz Hw.
  - destruct z; [|discriminate]. destruct w; [|discriminate]. reflexivity.
  - destruct z as [|[z0 z1] z]; [discriminate|].
    destruct w as [|[w0 w1] w]; [discriminate|].
    rewrite mix_state_cons. cbn [sos_sample].
    replace (b0 q * (v * c + u) + (z0 * c + w0))
      with ((b0 q * v + z0) * c + (b0 q * u + w0)) by ring.
    rewrite IH by (simpl in Hz, Hw; lia).
    destruct (sos_sample s z (b0 q * v + z0)) as [yA zA].
    destruct (sos_sample s w (b0 q * u + w0)) as [yB zB].
    cbn [fst snd]. rewrite mix_state_cons.
    apply f_equal. apply (f_equal2 cons); [|reflexivity].
    apply f_equal2; ring.
Qed.

Lemma sosfilt_run_mix (c : R) (s : sos) : forall (xA xB : block) (z w : sos_state),
  length xA = length xB -> length z = length s -> length w = length s ->
  sosfilt_run s (mix c xA xB) (mix_state c z w)
  = (mix c (fst (sosfilt_run s xA z)) (fst (sosfilt_run s xB w)),
     mix_state c (snd (sosfilt_run s xA z)) (snd (sosfilt_run s xB w))).
Proof.
  induction xA as [|v xA IH]; intros xB z w Hx Hz Hw.
  - destruct xB; [|discriminate]. reflexivity.
  - destruct xB as [|u xB]; [discriminate|].
    rewrite mix_cons. cbn [sosfilt_run].
    rewrite sos_sample_mix by assumption.
    pose proof (sos_sample_state_length s z v Hz) as HzA.
    pose proof (sos_sample_state_length s w u Hw) as HzB.
    destruct (sos_sample s z v) as [yA zA].
    destruct (sos_sample s w u) as [yB zB]. cbn [fst snd] in *.
    rewrite IH by (simpl in Hx; auto; lia).
    destruct (sosfilt_run s xA zA) as [ysA zfA].
    destruct (sosfilt_run s xB zB) as [ysB zfB].
    reflexivity.
Qed.

Lemma sosfilt_ok_inv (s : sos) (x : block) (z : sos_state) (r : block * sos_state) :
  sosfilt s x z = Ok r -> fits s z /\ r = sosfilt_run s x z.
Proof.
  unfold sosfilt, fits.
  destruct (forallb a0_is_one s); [|discriminate].
  destruct (Nat.eqb_spec (length z) (length s)) as [Hl|]; [|discriminate].
  cbn [negb]. intro H. injection H as <-. auto.
Qed.

(** One call of [sosfilt] on a combination of inputs and states. *)
Lemma sosfilt_mix (c : R) (s : sos) (xA xB yA yB : block) (zA zB zA' zB' : sos_state) :
  length xA = length xB ->
  sosfilt s xA zA = Ok (yA, zA') ->
  sosfilt s xB zB = Ok (yB, zB') ->
  sosfilt s (mix c xA xB) (mix_state c zA zB) = Ok (mix c yA yB, mix_state c zA' zB') /\
  length yA = length xA /\ length yB = length xB.
Proof.
  intros Hx HA HB.
  apply sosfilt_ok_inv in HA as [[HaA HlA] HrA].
  apply sosfilt_ok_inv in HB as [[_ HlB] HrB].
  assert (Hfit : fits s (mix_state c zA zB)).
  { split; [exact HaA|]. rewrite mix_state_length; congruence. }
  rewrite (sosfilt_fits _ _ _ Hfit), sosfilt_run_mix by assumption.
  destruct (sosfilt_run_lengths s xA zA HlA) as [H1 _].
  destruct (sosfilt_run_lengths s xB zB HlB) as [H2 _].
  rewrite <- HrA, <- HrB in *. cbn [fst snd] in *. auto.
Qed.

Lemma list_get_ok_inv {A : Type} (l : list A) (i : nat) (a : A) :
  list_get l i = Ok a -> nth_error l i = Some a.
Proof.
  unfold list_get. destruct (nth_error l i); [|discriminate].
  intro H. injection H as <-. reflexivity.
Qed.

Lemma list_get_mix (c : R) (i : nat) : forall (zsA zsB : list sos_state) (zA zB : sos_state),
  list_get zsA i = Ok zA -> list_get zsB i = Ok zB ->
  list_get (mix_states c zsA zsB) i = Ok (mix_state c zA zB).
Proof.
  induction i as [|i IH]; intros zsA zsB zA zB HA HB;
    apply list_get_ok_inv in HA; apply list_get_ok_inv in HB;
    destruct zsA as [|a zsA]; try discriminate;
    destruct zsB as [|b zsB]; try discriminate;
    cbn [nth_error] in HA, HB.
  - injection HA as <-. injection HB as <-. reflexivity.
  - unfold list_get, mix_states. cbn [combine map nth_error].
    apply (IH zsA zsB); unfold list_get; [now rewrite HA | now rewrite HB].
Qed.

Lemma list_set_mix (c : R) (a b : sos_state) :
  forall (zsA zsB : list sos_state) (i : nat),
    list_set (mix_states c zsA zsB) i (mix_state c a b)
    = mix_states c (list_set zsA i a) (list_set zsB i b).
Proof.
  induction zsA as [|zA zsA IH]; intros zsB i.
  - reflexivity.
  - destruct zsB as [|zB zsB].
    + destruct i; reflexivity.
    + destruct i as [|i].
      * reflexivity.
      * unfold mix_states in *. cbn [list_set combine map]. f_equal. apply IH.
Qed.

(** The bass mix [x + 2.0 * low] of a combination is the combination of
    the bass mixes. *)
Lemma mix_bass_mix (c : R) : forall xA lowA xB lowB : block,
  length lowA = length xA -> length xB = length xA -> length lowB = length xA ->
  vadd (mix c xA xB) (vscale (mix c lowA lowB) 2)
  = mix c (vadd xA (vscale lowA 2)) (vadd xB (vscale lowB 2)).
Proof.
  induction xA as [|a xA IH]; intros lowA xB lowB H1 H2 H3;
    destruct lowA as [|la lowA]; try discriminate;
    destruct xB as [|b xB]; try discriminate;
    destruct lowB as [|lb lowB]; try discriminate.
  - reflexivity.
  - simpl in H1, H2, H3.
    specialize (IH lowA xB lowB ltac:(lia) ltac:(lia) ltac:(lia)).
    unfold mix, vadd, vscale in *. cbn [map combine fst snd].
    apply (f_equal2 cons); [ring | exact IH].
Qed.

(** The loop of [_process] on a combination of inputs and states. *)
Lemma process_loop_mix (c : R) (bass : nat) (secs : list (nat * sos)) :
  forall (xA xB yA yB : block) (zsA zsB zA' zB' : list sos_state),
    length xA = length xB ->
    process_loop bass secs xA zsA = Ok (yA, zA') ->
    process_loop bass secs xB zsB = Ok (yB, zB') ->
    process_loop bass secs (mix c xA xB) (mix_states c zsA zsB)
    = Ok (mix c yA yB, mix_states c zA' zB').
Proof.
  induction secs as [|[i s] secs IH]; intros xA xB yA yB zsA zsB zA' zB' Hx HA HB.
  - cbn [process_loop] in *. injection HA as <- <-. injection HB as <- <-. reflexivity.
  - cbn [process_loop] in *. destruct (Nat.eqb i bass).
    + apply bind_ok_inv in HA as [zA [HgA HA]].
      apply bind_ok_inv in HA as [[lowA z1A] [HsA HA]].
      apply bind_ok_inv in HA as [zA2 [HgA2 HA]].
      apply bind_ok_inv in HA as [[xA' z2A] [HsA2 HA]].
      apply bind_ok_inv in HB as [zB [HgB HB]].
      apply bind_ok_inv in HB as [[lowB z1B] [HsB HB]].
      apply bind_ok_inv in HB as [zB2 [HgB2 HB]].
      apply bind_ok_inv in HB as [[xB' z2B] [HsB2 HB]].
      destruct (sosfilt_mix c s _ _ _ _ _ _ _ _ Hx HsA HsB) as [Hlow [Hl1 Hl2]].
      destruct (sosfilt_mix c s _ _ _ _ _ _ _ _ Hx HsA2 HsB2) as [Hser [Hl3 Hl4]].
      rewrite (list_get_mix c i _ _ _ _ HgA HgB). cbn [bind].
      rewrite Hlow. cbn [bind].
      rewrite list_set_mix, (list_get_mix c i _ _ _ _ HgA2 HgB2). cbn [bind].
      rewrite Hser. cbn [bind].
      rewrite list_set_mix, mix_bass_mix by congruence.
      apply IH; [|assumption|assumption].
      rewrite !vadd_length; rewrite ?vscale_length; congruence.
    + apply bind_ok_inv in HA as [zA [HgA HA]].
      apply bind_ok_inv in HA as [[xA' z1A] [HsA HA]].
      apply bind_ok_inv in HB as [zB [HgB HB]].
      apply bind_ok_inv in HB as [[xB' z1B] [HsB HB]].
      destruct (sosfilt_mix c s _ _ _ _ _ _ _ _ Hx HsA HsB) as [Hs [Hl1 Hl2]].
      rewrite (list_get_mix c i _ _ _ _ HgA HgB). cbn [bind].
      rewrite Hs. cbn [bind].
      rewrite list_set_mix.
      apply IH; [congruence|assumption|assumption].
Qed.

(** X21: the filter cascade of [_process] is linear.  If, on one chain,
    the block [xA] from the states [zi self] gives [yA] and the block [xB]
    of the same length from the states [zsB] gives [yB], then the block
    [xA * c + xB] from the states [zi self * c + zsB] gives [yA * c + yB]
    and leaves the same combination of the states the two runs left; this
    holds although the section at [bass_idx] filters twice. *)
Theorem cascade_is_linear :
  forall (self : AudioProcessor) (c : R) (xA xB yA yB : block)
         (zsB zA' zB' : list sos_state),
    length xA = length xB ->
    cascade self xA = Ok (yA, zA') ->
    cascade (set_zi self zsB) xB = Ok (yB, zB') ->
    cascade (set_zi self (mix_states c (zi self) zsB)) (mix c xA xB)
    = Ok (mix c yA yB, mix_states c zA' zB').
Proof.
  intros self c xA xB yA yB zsB zA' zB' Hx HA HB.
  unfold cascade in *. cbn [set_zi bass_idx sos_chain zi] in *.
  exact (process_loop_mix c _ _ _ _ _ _ _ _ _ _ Hx HA HB).
Qed.

Lemma cascade_is_linear_witness :
  length [1] = length [1] /\
  cascade (set_zi bench_engine (mix_states 3 (zi bench_engine) (bench_states 1)))
          (mix 3 [1] [1])
  = Ok (mix 3 [7 / 4] [17 / 4],
        mix_states 3 (bench_states (3 / 8)) (bench_states (5 / 8))).
Proof.
  split; [reflexivity|].
  apply (cascade_is_linear bench_engine 3 [1] [1]).
  - reflexivity.
  - unfold bench_engine. rewrite (bench_cascade_one 0 1).
    replace (1 / 2 + (1 / 2 + 0) / 2 + 2 * (1 / 2 + 0)) with (7 / 4) by lra.
    replace ((1 / 2 + (1 / 2 + 0) / 2) / 2) with (3 / 8) by lra.
    reflexivity.
  - change (set_zi bench_engine (bench_states 1)) with (bench_engine_at 1).
    rewrite (bench_cascade_one 1 1).
    replace (1 / 2 + (1 / 2 + 1) / 2 + 2 * (1 / 2 + 1)) with (17 / 4) by lra.
    replace ((1 / 2 + (1 / 2 + 1) / 2) / 2) with (5 / 8) by lra.
    reflexivity.
Defined.

(** ** Level changes above the gate *)

Lemma mix_same (k : R) (x : block) : mix (k - 1) x x = vscale x k.
Proof.
  unfold mix, vadd, vscale. induction x as [|v x IH]; [reflexivity|].
  cbn [map combine fst snd]. apply (f_equal2 cons); [ring | exact IH].
Qed.

Lemma mix_state_same (k : R) (z : sos_state) :
  mix_state (k - 1) z z = map (fun p : R * R => (fst p * k, snd p * k)) z.
Proof.
  unfold mix_state. induction z as [|[z0 z1] z IH]; [reflexivity|].
  cbn [map combine fst snd]. apply (f_equal2 cons); [|exact IH].
  apply f_equal2; ring.
Qed.

Lemma mix_states_same (k : R) (zs : list sos_state) :
  mix_states (k - 1) zs zs = scale_states k zs.
Proof.
  unfold mix_states, scale_states. induction zs as [|z zs IH]; [reflexivity|].
  cbn [map combine fst snd]. apply (f_equal2 cons); [apply mix_state_same | exact IH].
Qed.

(** The cascade on a block and states that are both multiplied by [k]. *)
Lemma cascade_scaled (self : AudioProcessor) (k : R) (x y : block)
    (zs : list sos_state) :
  cascade self x = Ok (y, zs) ->
  cascade (set_zi self (scale_states k (zi self))) (vscale x k)
  = Ok (vscale y k, scale_states k zs).
Proof.
  intro H. unfold cascade in *. cbn [set_zi bass_idx sos_chain zi].
  rewrite <- !mix_states_same, <- !mix_same.
  exact (process_loop_mix (k - 1) _ _ _ _ _ _ _ _ _ _ eq_refl H H).
Qed.

Lemma Rsum_squares_scaled (x : block) (k : R) :
  Rsum (map (fun v => v ^ 2) (vscale x k)) = k ^ 2 * Rsum (map (fun v => v ^ 2) x).
Proof.
  unfold vscale. induction x as [|v x IH]; cbn [map Rsum]; [ring|].
  rewrite IH. ring.
Qed.

(** The RMS of a block grows with the factor the block is multiplied by. *)
Lemma rms_scaled (x : block) (k : R) : rms (vscale x k) = Rabs k * rms x.
Proof.
  unfold rms, mean. rewrite Rsum_squares_scaled, !length_map, vscale_length.
  replace (k ^ 2 * Rsum (map (fun v => v ^ 2) x) / INR (length x))
    with (Rsqr k * (Rsum (map (fun v => v ^ 2) x) / INR (length x)))
    by (unfold Rsqr, Rdiv; ring).
  rewrite sqrt_mult_alt by apply Rle_0_sqr.
  now rewrite sqrt_Rsqr_abs.
Qed.

Lemma rms_nonneg (x : block) : 0 <= rms x.
Proof. unfold rms. apply sqrt_pos. Qed.

(** X22: above the gate the engine has the same gain at every level.  If
    the filtered block of an input reaches the gate threshold, [_process]
    returns it as it is, and the same input made louder by a factor [k]
    with [|k| >= 1] (the filter states being [k] times as large as well, as
    they are after a louder past, or zero in both cases) comes out [k]
    times as loud and leaves [k] times the states: the gate does not close
    and nothing is compressed or limited. *)
Theorem louder_input_gives_louder_output :
  forall (self : AudioProcessor) (k : R) (x y : block) (zs : list sos_state),
    1 <= Rabs k ->
    cascade self x = Ok (y, zs) ->
    gate_threshold <= rms y ->
    _process self x = Ok (y, set_zi self zs) /\
    _process (set_zi self (scale_states k (zi self))) (vscale x k)
    = Ok (vscale y k, set_zi self (scale_states k zs)).
Proof.
  intros self k x y zs Hk Hc Hloud.
  assert (Hopen : forall b, gate_threshold <= rms b -> noise_gate b = b).
  { intros b Hb. unfold noise_gate.
    destruct (Rlt_dec (rms b) gate_threshold); [lra | reflexivity]. }
  split.
  - unfold _process. rewrite Hc. cbn [bind]. now rewrite Hopen.
  - unfold _process. rewrite (cascade_scaled self k x y zs Hc). cbn [bind].
    rewrite Hopen; [reflexivity|].
    rewrite rms_scaled. pose proof (rms_nonneg y). nra.
Qed.

Lemma louder_input_gives_louder_output_witness :
  1 <= Rabs 2 /\ gate_threshold <= rms [15 / 8; 39 / 16] /\
  _process (set_zi bench_engine (scale_states 2 (zi bench_engine))) (vscale [1; 1] 2)
  = Ok (vscale [15 / 8; 39 / 16] 2,
        set_zi bench_engine (scale_states 2 (bench_states (15 / 32)))).
Proof.
  assert (Hk : 1 <= Rabs 2) by (rewrite Rabs_right; lra).
  assert (Hloud : gate_threshold <= rms [15 / 8; 39 / 16]).
  { unfold rms. pose proof (sqrt_le_1_alt _ _ bench_block_is_loud) as Hs.
    rewrite sqrt_1 in Hs. pose proof gate_threshold_lt_1. lra. }
  split; [exact Hk|]. split; [exact Hloud|].
  exact (proj2 (louder_input_gives_louder_output bench_engine 2 [1; 1] _ _
                  Hk bench_cascade_two Hloud)).
Defined.
